(** * Voice-over generator: configuration, voice resolution, synthesis
      orchestration and sample preprocessing

    A shallow embedding of [voice_cloning.py] (class [VoiceCloner]) and
    [record_voice.py] (class [VoiceRecorder]).  Python dictionaries are
    finite maps with string keys, exceptions are an explicit error type,
    the file system is the set of paths that exist, and the third-party
    engines (YAML parser, XTTS, pydub, librosa) are either parameters of a
    section or modelled in exact arithmetic. *)

From Stdlib Require Import Ascii String QArith Qabs Qround Lqa Reals Lra.
From stdpp Require Import gmap strings list fin_maps pretty sorting.

Local Open Scope string_scope.

(** ** Python values *)

(** What [yaml.safe_load] can hand back, and what the script passes around:
    [None], booleans, integers, floats (exact rationals here), strings,
    lists and dictionaries keyed by strings. *)
#[warnings="-register-all"]
Inductive value : Type :=
  | VNone
  | VBool (b : bool)
  | VInt (n : Z)
  | VFloat (q : Q)
  | VStr (s : string)
  | VList (l : list value)
  | VDict (d : gmap string value).

(** [isinstance(v, dict)] *)
Definition is_dict (v : value) : bool :=
  match v with VDict _ => true | _ => false end.

(** ** Exceptions *)

Inductive exn : Type :=
  | FileNotFoundError (msg : string)
  | AttributeError
  | TypeError
  | KeyError (k : string)
  | ValueError
  | YAMLError
  | EngineError (msg : string).

Inductive result (A : Type) : Type :=
  | Ok (a : A)
  | Raise (e : exn).
Arguments Ok {A} a.
Arguments Raise {A} e.

Global Instance result_ret : MRet result := fun A a => Ok a.

Global Instance result_bind : MBind result := fun A B k r =>
  match r with
  | Ok a => k a
  | Raise e => Raise e
  end.

(** Subscript [v[k]] and method call [v.get(k, dflt)] on an arbitrary value:
    only dictionaries support them with a string key. *)
Definition getitem (v : value) (k : string) : result value :=
  match v with
  | VDict d => match d !! k with Some x => Ok x | None => Raise (KeyError k) end
  | _ => Raise TypeError
  end.

Definition dict_get (v : value) (k : string) (dflt : value) : result value :=
  match v with
  | VDict d => Ok (default dflt (d !! k))
  | _ => Raise AttributeError
  end.

(** ** ConfigResolver: [VoiceCloner.load_config] *)

Module Config.

(** The states in which [load_config] can find the configuration file.  For
    a file that exists, [yaml.safe_load] either returns a value ([VNone]
    for an empty document) or raises on text that is not YAML. *)
Inductive config_file : Type :=
  | Absent
  | Loaded (v : value)
  | Malformed.

Definition model_defaults : list (string * value) :=
  [ ("name", VStr "tts_models/multilingual/multi-dataset/xtts_v2");
    ("temperature", VFloat (7 # 10)%Q);
    ("speed", VFloat (1 # 1)%Q) ].

Definition output_defaults : list (string * value) :=
  [ ("format", VStr "wav");
    ("sample_rate", VInt 44100);
    ("normalize", VBool true) ].

(** The [defaults] literal.  Every section of it is a dictionary, written
    here as the list of its items in source order, so the test
    [isinstance(value, dict)] of the merge loop is always true. *)
Definition defaults : list (string * list (string * value)) :=
  [ ("voices", []);
    ("model", model_defaults);
    ("output", output_defaults) ].

(** The dictionary object a section literal denotes. *)
Definition section_dict (items : list (string * value)) : gmap string value :=
  list_to_map items.

(** Inner loop:
    [for subkey, subvalue in value.items():
       if subkey not in config[key]: config[key][subkey] = subvalue]. *)
Definition fill_missing (items : list (string * value))
    (user : gmap string value) : gmap string value :=
  foldl (fun acc kv =>
           match acc !! kv.1 with
           | None => <[kv.1 := kv.2]> acc
           | Some _ => acc
           end) user items.

(** One iteration of the outer loop for the pair [(key, value)]. *)
Definition merge_section (config : gmap string value)
    (kv : string * list (string * value)) : gmap string value :=
  match config !! kv.1 with
  | None => <[kv.1 := VDict (section_dict kv.2)]> config
  | Some (VDict user) => <[kv.1 := VDict (fill_missing kv.2 user)]> config
  | Some _ => config
  end.

Definition merge_defaults (config : gmap string value) : gmap string value :=
  foldl merge_section config defaults.

(** The value the outer loop leaves under a key of the defaults, given
    what the configuration held there before: the three branches of the
    loop body. *)
Definition merged_value (found : option value)
    (items : list (string * value)) : option value :=
  match found with
  | None => Some (VDict (section_dict items))
  | Some (VDict user) => Some (VDict (fill_missing items user))
  | Some v => Some v
  end.

(** [load_config]: the value read from the file, replaced by [{}] when the
    file is absent, when the value is [None] and when it is not a
    dictionary, then merged with the defaults.  The parser's exception is
    not caught. *)
Definition load_config (f : config_file) : result (gmap string value) :=
  match f with
  | Absent => Ok (merge_defaults ∅)
  | Malformed => Raise YAMLError
  | Loaded v =>
      let config := match v with VDict d => d | _ => ∅ end in
      Ok (merge_defaults config)
  end.

(** The configuration the specification calls all-defaults. *)
Definition all_defaults : gmap string value :=
  <["voices" := VDict ∅]>
  (<["model" := VDict (section_dict model_defaults)]>
  (<["output" := VDict (section_dict output_defaults)]> ∅)).

End Config.

(** ** Voice resolution: [VoiceCloner.get_voice_sample_path] *)

Module Voice.

Definition extensions : list string := [".wav"; ".mp3"; ".flac"].

(** [str(Path('voices') / f"{voice_name}{ext}")] for a plain voice name. *)
Definition candidate (voice_name ext : string) : string :=
  "voices/" +:+ voice_name +:+ ext.

(** The probing loop over the extensions; [files] is the set of paths that
    exist. *)
Fixpoint probe (files : gset string) (voice_name : string)
    (exts : list string) : option string :=
  match exts with
  | [] => None
  | ext :: rest =>
      if decide (candidate voice_name ext ∈ files)
      then Some (candidate voice_name ext)
      else probe files voice_name rest
  end.

Definition not_found_message (voice_name : string) : string :=
  "Voice sample '" +:+ voice_name +:+ "' not found. " +:+
  "Please add it to voices/ directory or config.yaml".

Definition get_voice_sample_path (config : gmap string value)
    (files : gset string) (voice_name : string) : result value :=
  let voices := default (VDict ∅) (config !! "voices") in
  let in_directory :=
    match probe files voice_name extensions with
    | Some p => Ok (VStr p)
    | None => Raise (FileNotFoundError (not_found_message voice_name))
    end in
  match voices with
  | VDict vs =>
      match vs !! voice_name with
      | Some entry => dict_get entry "sample_path" VNone
      | None => in_directory
      end
  | _ => in_directory
  end.

End Voice.

(** ** SynthesisOrchestrator: [generate_speech], [post_process_audio],
       [batch_generate] *)

Module Synth.

(** Output locations.  [InOutput name] is [Path('output') / name]; [Rel p]
    is a path the caller spelled out, taken to lie outside [output/]. *)
Inductive path : Type :=
  | Rel (p : string)
  | InOutput (name : string).

(** [str(path) + suffix] stays in the directory of [path]. *)
Definition add_suffix (p : path) (suffix : string) : path :=
  match p with
  | Rel s => Rel (s +:+ suffix)
  | InOutput n => InOutput (n +:+ suffix)
  end.

(** [s.replace('.wav', '.mp3')]: every occurrence, left to right. *)
Fixpoint replace_wav (s : string) : string :=
  match s with
  | String "."%char (String "w"%char (String "a"%char (String "v"%char rest))) =>
      ".mp3" +:+ replace_wav rest
  | String c rest => String c (replace_wav rest)
  | EmptyString => EmptyString
  end.

(** [str(output_path).replace('.wav', '.mp3')]; the prefix [output/] holds
    no dot, so the replacement acts on the file name. *)
Definition to_mp3 (p : path) : path :=
  match p with
  | Rel s => Rel (replace_wav s)
  | InOutput n => InOutput (replace_wav n)
  end.

(** What the run leaves behind for an observer: the calls made to the
    synthesis engine, the files exported, and the lines batch mode prints
    for a file it gave up on or skipped. *)
Inductive event : Type :=
  | Synthesize (text : string) (speaker_wav : value)
               (language : string) (speed : value)
  | Export (p : path)
  | ErrorProcessing (text_file : string) (e : exn)
  | SkipEmpty (text_file : string).

(** The advisory [validate_voice_sample] prints. *)
Inductive sample_advice : Type :=
  | Warning_short
  | Acceptable
  | Will_use_first_30
  | Good.

(** The external capabilities the orchestrator drives: loading the model
    ([TTS(model_name).to(device)]), one synthesis call
    ([self.tts.tts(text=, speaker_wav=, language=, speed=)]) and decoding a
    voice sample to its length in milliseconds
    ([len(AudioSegment.from_file(path))]). *)
Class Backend : Type := {
  engine : Type;
  load_model : value → result engine;
  synthesize : engine → string → value → string → value → result unit;
  decode_ms : value → result Z
}.

Section Orchestrator.
Context `{B : Backend}.

(** The cloner object ([config], [tts]) together with the file system it
    acts on: [files] are the paths that exist outside [output/],
    [descriptors] the open file descriptors, [output_dir] the names of the
    entries of [output/]. *)
Record machine : Type := {
  config : gmap string value;
  tts : option engine;
  files : gset string;
  descriptors : gset Z;
  output_dir : gset string;
  log : list event
}.

(** Computations that read and update the machine and may raise; an
    exception keeps the updates made before it. *)
Definition M (A : Type) : Type := machine → result A * machine.

Definition ret {A} (a : A) : M A := fun m => (Ok a, m).

Definition raise {A} (e : exn) : M A := fun m => (Raise e, m).

Definition and_then {A C} (c : M A) (k : A → M C) : M C := fun m =>
  match c m with
  | (Ok a, m') => k a m'
  | (Raise e, m') => (Raise e, m')
  end.

Global Instance M_ret : MRet M := @ret.

Global Instance M_bind : MBind M := fun A C k c => and_then c k.

Definition lift {A} (r : result A) : M A := fun m => (r, m).

Definition get : M machine := fun m => (Ok m, m).

Definition emit (e : event) : M unit := fun m =>
  (Ok tt, {| config := config m; tts := tts m; files := files m;
             descriptors := descriptors m; output_dir := output_dir m;
             log := log m ++ [e] |}).

Definition set_tts (e : engine) : M unit := fun m =>
  (Ok tt, {| config := config m; tts := Some e; files := files m;
             descriptors := descriptors m; output_dir := output_dir m;
             log := log m |}).

Definition write_file (p : path) : M unit := fun m =>
  (Ok tt,
   match p with
   | Rel s =>
       {| config := config m; tts := tts m; files := {[ s ]} ∪ files m;
          descriptors := descriptors m; output_dir := output_dir m;
          log := log m |}
   | InOutput n =>
       {| config := config m; tts := tts m; files := files m;
          descriptors := descriptors m; output_dir := {[ n ]} ∪ output_dir m;
          log := log m |}
   end).

(** [if os.path.exists(p): os.remove(p)] *)
Definition remove_file (p : path) : M unit := fun m =>
  (Ok tt,
   match p with
   | Rel s =>
       {| config := config m; tts := tts m; files := files m ∖ {[ s ]};
          descriptors := descriptors m; output_dir := output_dir m;
          log := log m |}
   | InOutput n =>
       {| config := config m; tts := tts m; files := files m;
          descriptors := descriptors m; output_dir := output_dir m ∖ {[ n ]};
          log := log m |}
   end).

(** [config[key]] on the cloner's configuration. *)
Definition config_item (key : string) : M value :=
  m ← get;
  lift (getitem (VDict (config m)) key).

(** [initialize_model]: the model is loaded on first use and kept. *)
Definition initialize_model : M unit :=
  m ← get;
  match tts m with
  | Some _ => ret tt
  | None =>
      model ← config_item "model";
      model_name ← lift (getitem model "name");
      e ← lift (load_model model_name);
      set_tts e
  end.

(** The wrapper method around [Voice.get_voice_sample_path]. *)
Definition get_voice_sample_path (voice_name : string) : M value :=
  m ← get;
  lift (Voice.get_voice_sample_path (config m) (files m) voice_name).

(** [os.path.exists(p)]: a string names a file, an integer (or a boolean,
    which is an integer) a descriptor; anything else is a type error. *)
Definition path_exists (p : value) : M bool :=
  m ← get;
  match p with
  | VStr s => ret (bool_decide (s ∈ files m))
  | VInt n => ret (bool_decide (n ∈ descriptors m))
  | VBool b => ret (bool_decide (Z.b2z b ∈ descriptors m))
  | _ => raise TypeError
  end.

(** [f"{p}"] for the values [os.path.exists] accepts. *)
Definition show (p : value) : string :=
  match p with
  | VStr s => s
  | VInt n => pretty n
  | VBool true => "True"
  | VBool false => "False"
  | _ => ""
  end.

(** [duration = len(audio) / 1000.0] compared with 3, 6 and 30 seconds. *)
Definition advice_for (ms : Z) : sample_advice :=
  if decide (ms < 3000)%Z then Warning_short
  else if decide (ms < 6000)%Z then Acceptable
  else if decide (30000 < ms)%Z then Will_use_first_30
  else Good.

Definition validate_voice_sample (audio_path : value) : M sample_advice :=
  found ← path_exists audio_path;
  if found : bool then
    ms ← lift (decode_ms audio_path);
    ret (advice_for ms)
  else
    raise (FileNotFoundError ("Audio file not found: " +:+ show audio_path)).

(** [output_dir / f"output_{len(list(output_dir.glob('*'))) + 1}.wav"] *)
Definition numbered_name (n : nat) : string :=
  "output_" +:+ pretty n +:+ ".wav".

Definition default_output_path (entries : gset string) : path :=
  InOutput (numbered_name (size entries + 1)).

(** [output_format == 'mp3'] *)
Definition is_mp3 (output_format : value) : bool :=
  match output_format with
  | VStr s => String.eqb s "mp3"
  | _ => false
  end.

(** The directory after [n] calls that left their numbered files. *)
Definition numbered_dir (n : nat) : gset string :=
  list_to_set (numbered_name <$> seq 1 n).

(** [post_process_audio]: normalisation and resampling change the samples,
    not the set of files; the export decides the file that appears. *)
Definition post_process_audio (input_path output_path : path) : M unit :=
  out ← config_item "output";
  _ ← lift (dict_get out "normalize" (VBool true));
  out ← config_item "output";
  _ ← lift (dict_get out "sample_rate" (VInt 44100));
  out ← config_item "output";
  output_format ← lift (dict_get out "format" (VStr "wav"));
  let target :=
    if is_mp3 output_format then to_mp3 output_path else output_path in
  write_file target;;
  emit (Export target).

(** [if given is None: given = self.config['model'].get(key, dflt)], the
    statement that resolves the temperature and the speed. *)
Definition resolve_setting (given : value) (key : string)
    (dflt : value) : M value :=
  match given with
  | VNone =>
      model ← config_item "model";
      lift (dict_get model key dflt)
  | _ => ret given
  end.

Definition generate_speech (text : string) (voice_sample_path : value)
    (output_path : option path) (language : string)
    (temperature speed : value) : M path :=
  initialize_model;;
  _ ← validate_voice_sample voice_sample_path;
  temperature ← resolve_setting temperature "temperature" (VFloat (7 # 10)%Q);
  speed ← resolve_setting speed "speed" (VFloat (1 # 1)%Q);
  output_path ←
    match output_path with
    | None => m ← get; ret (default_output_path (output_dir m))
    | Some p => ret p
    end;
  m ← get;
  match tts m with
  | None => raise AttributeError
  | Some e =>
      emit (Synthesize text voice_sample_path language speed);;
      lift (synthesize e text voice_sample_path language speed);;
      let temp_path := add_suffix output_path ".temp.wav" in
      write_file temp_path;;
      post_process_audio temp_path output_path;;
      remove_file temp_path;;
      ret output_path
  end.

(** [try: c except Exception as e: handler e] *)
Definition try_except {A} (c : M A) (handler : exn → M A) : M A := fun m =>
  match c m with
  | (Ok a, m') => (Ok a, m')
  | (Raise e, m') => handler e m'
  end.

(** Python's [str.strip()] on ASCII text. *)
Definition is_space (c : ascii) : bool :=
  let n := nat_of_ascii c in
  ((n =? 32) || ((9 <=? n) && (n <=? 13)) || ((28 <=? n) && (n <=? 31)))%nat.

Fixpoint lstrip (s : string) : string :=
  match s with
  | String c rest => if is_space c then lstrip rest else s
  | EmptyString => EmptyString
  end.

Fixpoint rstrip (s : string) : string :=
  match s with
  | String c rest =>
      match rstrip rest with
      | EmptyString => if is_space c then EmptyString else String c EmptyString
      | r => String c r
      end
  | EmptyString => EmptyString
  end.

Definition strip (s : string) : string := rstrip (lstrip s).

(** A file [stem.txt] of the input directory and what reading it gives. *)
Record text_file : Type := {
  stem : string;
  content : string
}.

Definition file_name (f : text_file) : string := stem f +:+ ".txt".

(** The body of the [for text_file in text_files] loop. *)
Definition process_file (voice_sample_path : value) (language : string)
    (f : text_file) : M unit :=
  let text := strip (content f) in
  if decide (text = "") then
    emit (SkipEmpty (file_name f))
  else
    let output_path := InOutput (stem f +:+ "_voiceover.wav") in
    try_except
      (_ ← generate_speech text voice_sample_path (Some output_path)
             language VNone VNone;
       ret tt)
      (fun e => emit (ErrorProcessing (file_name f) e)).

Fixpoint process_files (voice_sample_path : value) (language : string)
    (text_files : list text_file) : M unit :=
  match text_files with
  | [] => ret tt
  | f :: rest =>
      process_file voice_sample_path language f;;
      process_files voice_sample_path language rest
  end.

(** [batch_generate]; [input_dir] is [None] for a directory that does not
    exist, else the [*.txt] files found in it. *)
Definition batch_generate (input_dir : option (list text_file))
    (voice_name language : string) : M unit :=
  match input_dir with
  | None => raise (FileNotFoundError "Directory not found")
  | Some text_files =>
      voice_sample_path ← get_voice_sample_path voice_name;
      process_files voice_sample_path language text_files
  end.

(** Whether the file at an output location exists. *)
Definition path_in (p : path) (m : machine) : bool :=
  match p with
  | Rel s => bool_decide (s ∈ files m)
  | InOutput n => bool_decide (n ∈ output_dir m)
  end.

(** Single-text mode of [main], to its exit status: the voice is resolved
    (a failure is reported and ends the run), an empty text ends the run,
    speech is generated with the resolved path, and the size of the file
    at the returned path is printed.  Every failure ends with status 1. *)
Definition main_single (voice text : string) (output : option string)
    (language : string) (temperature speed : value) :
    machine → Z * machine := fun m =>
  match get_voice_sample_path voice m with
  | (Raise _, m1) => (1%Z, m1)
  | (Ok voice_sample_path, m1) =>
      if decide (text = "") then (1%Z, m1)
      else
        match generate_speech text voice_sample_path (Rel <$> output)
                language temperature speed m1 with
        | (Raise _, m2) => (1%Z, m2)
        | (Ok output_path, m2) =>
            if path_in output_path m2 then (0%Z, m2) else (1%Z, m2)
        end
  end.

(** The speed a call without a speed argument passes to the engine. *)
Definition configured_speed (cfg : gmap string value) : value :=
  match cfg !! "model" with
  | Some (VDict d) => default (VFloat (1 # 1)%Q) (d !! "speed")
  | _ => VFloat (1 # 1)%Q
  end.

(** The file [post_process_audio] exports for the output name [n]. *)
Definition exported_name (cfg : gmap string value) (n : string) : string :=
  match cfg !! "output" with
  | Some (VDict d) =>
      if is_mp3 (default (VStr "wav") (d !! "format")) then replace_wav n
      else n
  | _ => n
  end.

(** The engine [initialize_model] leaves in [self.tts]. *)
Definition engine_of (m : machine) : result engine :=
  match tts m with
  | Some e => Ok e
  | None =>
      model ← getitem (VDict (config m)) "model";
      model_name ← getitem model "name";
      load_model model_name
  end.

(** States a cloner can be in: the model is only ever loaded from a
    configuration whose [model] section is a mapping, and the
    configuration is not changed afterwards. *)
Definition well_formed (m : machine) : Prop :=
  is_Some (tts m) → ∃ d, config m !! "model" = Some (VDict d).

(** A cloner for which only the engine can fail: the model is loaded or
    loads as [e], the [model] and [output] sections are mappings, and the
    voice sample [p] exists and decodes. *)
Definition ready (m : machine) (e : engine) (p : string) : Prop :=
  engine_of m = Ok e ∧
  (∃ d, config m !! "model" = Some (VDict d)) ∧
  (∃ d, config m !! "output" = Some (VDict d)) ∧
  p ∈ files m ∧
  ∃ ms, decode_ms (VStr p) = Ok ms.






End Orchestrator.

Arguments machine {B}.
Arguments M {B} A.

Definition is_export (e : event) : bool :=
  match e with Export _ => true | _ => false end.

Definition is_error (e : event) : bool :=
  match e with ErrorProcessing _ _ => true | _ => false end.

(** A stand-in engine with fixed behaviour: the model always loads, every
    voice sample is ten seconds long, and synthesis fails exactly on the
    texts listed in [failing]. *)
Definition fake_backend (failing : list string) : Backend :=
  {| engine := unit;
     load_model := fun _ => Ok tt;
     synthesize := fun _ text _ _ _ =>
       if decide (text ∈ failing) then Raise (EngineError text) else Ok tt;
     decode_ms := fun _ => Ok 10000%Z |}.

(** A cloner created by [__init__] from the configuration [cfg], on a file
    system with the voice samples [voices] and the entries [entries] in
    [output/]. *)
Definition fresh `{B : Backend} (cfg : gmap string value)
    (voices entries : gset string) : machine :=
  {| config := cfg; tts := None; files := voices; descriptors := ∅;
     output_dir := entries; log := [] |}.

(** A cloner with the default configuration, the voice sample
    [voices/alex.wav], and [entries] in [output/]. *)
Definition studio (failing : list string) (entries : gset string) :
    @machine (fake_backend failing) :=
  @fresh (fake_backend failing) Config.all_defaults
    {[ "voices/alex.wav" ]} entries.

End Synth.

(** ** Levels in decibels *)

(** A level is a real number of decibels, or minus infinity for silence. *)
Inductive level : Type :=
  | NegInf
  | Fin (db : R).

(** [l < bound] for a level and a finite bound. *)
Definition level_below (l : level) (bound : R) : bool :=
  match l with
  | NegInf => true
  | Fin db => if Rlt_dec db bound then true else false
  end.

Definition log10 (x : R) : R := (ln x / ln 10)%R.

(** [20 * log10(ratio)] for a ratio that is not negative; the logarithm of
    zero is minus infinity. *)
Definition decibels (ratio : R) : level :=
  if Req_dec_T ratio 0 then NegInf else Fin (20 * log10 ratio)%R.

Definition sum_R (l : list R) : R := foldr Rplus 0%R l.

Definition mean (l : list R) : R := (sum_R l / INR (length l))%R.

(** Root mean square of a block of samples; an empty block has level 0. *)
Definition root_mean_square (l : list R) : R :=
  match l with
  | [] => 0%R
  | _ => sqrt (mean ((fun x => x * x)%R <$> l))
  end.

(** ** AudioPostProcessor: [VoiceCloner.normalize_audio] *)

Module PostProcess.

(** A pydub segment in exact arithmetic: its samples and the number of
    bytes of a sample. *)
Record audio_segment : Type := {
  samples : list R;
  sample_width : nat
}.

(** Half the range of a sample of [sample_width] bytes. *)
Definition max_possible_amplitude (a : audio_segment) : R :=
  (2 ^ (8 * sample_width a) / 2)%R.

Definition rms (a : audio_segment) : R := root_mean_square (samples a).

(** [audio.dBFS]: the level of the segment relative to full scale. *)
Definition dBFS (a : audio_segment) : level :=
  decibels (rms a / max_possible_amplitude a).

(** [db_to_float(db) = 10 ** (db / 20)] *)
Definition db_to_float (db : R) : R := Rpower 10 (db / 20).

(** [audio.apply_gain(change)]: every sample times the same factor. *)
Definition apply_gain (change : R) (a : audio_segment) : audio_segment :=
  {| samples := (fun x => x * db_to_float change)%R <$> samples a;
     sample_width := sample_width a |}.

Definition target_dBFS : R := (-14)%R.

(** [normalize_audio]: the gain [target_dBFS - audio.dBFS], applied to
    the whole segment.  For silence the gain is infinite and the product
    has no value in exact arithmetic. *)
Definition normalize_audio (a : audio_segment) : option audio_segment :=
  match dBFS a with
  | Fin current => Some (apply_gain (target_dBFS - current) a)
  | NegInf => None
  end.


End PostProcess.

(** ** AudioPreprocessor and AudioValidator: [VoiceRecorder] *)

Module Recorder.

Global Instance Qle_decision (x y : Q) : Decision (x <= y)%Q :=
  match Qlt_le_dec y x with
  | left H => right (Qlt_not_le _ _ H)
  | right H => left H
  end.

(** The order the samples are sorted by. *)
Global Instance Qle_transitive : Transitive Qle.
Proof. intros x y z. apply Qle_trans. Qed.

Global Instance Qle_total_rel : Total Qle.
Proof.
  intros x y. destruct (Qlt_le_dec x y) as [H|H]; [left|right]; [|done].
  by apply Qlt_le_weak.
Qed.

(** [np.percentile(a, q)] with numpy's default linear interpolation: the
    value at the virtual index [(n - 1) * q / 100] of the sorted array.
    An empty array has no percentile. *)
Definition np_percentile (a : list Q) (q : Q) : option Q :=
  let sorted := merge_sort Qle a in
  let n := length a in
  let virtual_index := ((inject_Z (Z.of_nat n) - 1) * (q / 100))%Q in
  let previous := Z.to_nat (Qfloor virtual_index) in
  let next := Nat.min (previous + 1) (n - 1) in
  let gamma := (virtual_index - inject_Z (Z.of_nat previous))%Q in
  lo ← sorted !! previous;
  hi ← sorted !! next;
  Some (lo + (hi - lo) * gamma)%Q.

(** [np.where(np.abs(audio) > noise_threshold, audio, audio * 0.1)] *)
Definition soft_gate (noise_threshold : Q) (audio : list Q) : list Q :=
  (fun x => if Qlt_le_dec noise_threshold (Qabs x) then x
            else (x * (1 # 10))%Q) <$> audio.

Definition reduce_noise (audio : list Q) : option (list Q) :=
  noise_threshold ← np_percentile (Qabs <$> audio) 10;
  Some (soft_gate noise_threshold audio).

(** The three advisories of [validate_audio]. *)
Inductive duration_class : Type :=
  | Too_short
  | Will_be_truncated
  | Optimal.

Record report : Type := {
  duration_advice : duration_class;
  clipping : bool;
  noisy : bool
}.

(** [np.max]: an empty array has no maximum. *)
Definition np_max (l : list R) : result R :=
  match l with
  | [] => Raise ValueError
  | x :: rest => Ok (foldl Rmax x rest)
  end.

Definition classify_duration (duration : R) : duration_class :=
  if Rlt_dec duration 6 then Too_short
  else if Rlt_dec 30 duration then Will_be_truncated
  else Optimal.

Definition is_clipping (peak : R) : bool :=
  if Rlt_dec (99 / 100) peak then true else false.

(** [20 * np.log10(np.max(rms) / (np.mean(rms) + 1e-10))] *)
Definition snr_estimate (max_rms mean_rms : R) : level :=
  decibels (max_rms / (mean_rms + / 10 ^ 10)).

(** The classification as a function of the three measurements. *)
Definition classify (duration peak : R) (snr : level) : report :=
  {| duration_advice := classify_duration duration;
     clipping := is_clipping peak;
     noisy := level_below snr 10 |}.

Section Validator.

(** [librosa]'s framing of a signal into analysis windows (2048 samples
    every 512 samples after centre padding). *)
Variable frame : list R → list (list R).

(** [librosa.feature.rms(y=y)[0]] *)
Definition feature_rms (y : list R) : list R :=
  root_mean_square <$> frame y.

(** [validate_audio] on a decoded file: [duration_ms] is [len(audio)], [y]
    the samples [librosa.load] returns.  The method prints the report and
    returns [True]. *)
Definition validate_audio (duration_ms : Z) (y : list R) : result report :=
  let duration := (IZR duration_ms / 1000)%R in
  peak ← np_max (Rabs <$> y);
  let rms := feature_rms y in
  max_rms ← np_max rms;
  Ok (classify duration peak (snr_estimate max_rms (mean rms))).

End Validator.

End Recorder.

(** ** Recording and splitting: [VoiceRecorder.record_audio],
       [VoiceRecorder.split_long_audio] *)

Module Capture.

Local Open Scope nat_scope.





(** [audio[start_ms:end_ms]] on a segment given as the sequence of its
    milliseconds. *)
Definition slice {A} (audio : list A) (start_ms end_ms : nat) : list A :=
  take (end_ms - start_ms) (drop start_ms audio).

(** [f"{base_path.stem}_part{i+1}{base_path.suffix}"], a file next to the
    input. *)
Definition part_name (stem suffix : string) (i : nat) : string :=
  stem +:+ "_part" +:+ pretty (i + 1) +:+ suffix.

(** What [split_long_audio] returns a path to: the input file itself, or
    a part it exported. *)
Inductive piece (A : Type) : Type :=
  | Whole
  | Part (name : string) (chunk : list A).
Arguments Whole {A}.
Arguments Part {A} name chunk.

(** [int(np.ceil(duration / max_duration))] for a duration of [len_ms]
    milliseconds. *)
Definition chunk_count (len_ms max_duration : nat) : nat :=
  (len_ms + 1000 * max_duration - 1) / (1000 * max_duration).

(** [split_long_audio]; [stem] and [suffix] are those of the input path.
    The result is [None] where the source divides by zero. *)
Definition split_long_audio {A} (audio : list A) (stem suffix : string)
    (max_duration : nat) : option (list (piece A)) :=
  let len_ms := length audio in
  if decide (len_ms ≤ 1000 * max_duration) then Some [Whole]
  else if decide (max_duration = 0) then None
  else
    let chunk_duration_ms := 1000 * max_duration in
    Some ((fun i =>
             let start_ms := i * chunk_duration_ms in
             let end_ms := Nat.min ((i + 1) * chunk_duration_ms) len_ms in
             Part (part_name stem suffix i) (slice audio start_ms end_ms))
          <$> seq 0 (chunk_count len_ms max_duration)).

(** The samples of the parts, in order. *)
Definition chunk_of {A} (p : piece A) : list A :=
  match p with
  | Whole => []
  | Part _ chunk => chunk
  end.

Definition name_of {A} (p : piece A) : option string :=
  match p with
  | Whole => None
  | Part name _ => Some name
  end.

(** [f"{output_path.stem}_chunk{i+1}.wav"], a file next to the requested
    output. *)
Definition chunk_output_name (stem : string) (i : nat) : string :=
  stem +:+ "_chunk" +:+ pretty (i + 1) +:+ ".wav".

(** The files the recorder's [main] has [process_audio] write for an input
    file, by name within the directory of the requested output
    [stem + suffix]: with [--split] one file per piece that
    [split_long_audio] returned, else the requested output. *)
Definition main_outputs {A} (split : bool) (pieces : list (piece A))
    (stem suffix : string) : list string :=
  if split then imap (fun i _ => chunk_output_name stem i) pieces
  else [stem +:+ suffix].

End Capture.

(** * Properties *)

(** ** Configuration loading and merging *)

Section ConfigFacts.
Import Config.

Lemma fill_missing_lookup items (user : gmap string value) subkey :
  fill_missing items user !! subkey =
  match user !! subkey with
  | Some v => Some v
  | None => section_dict items !! subkey
  end.
Proof.
  unfold fill_missing, section_dict.
  revert user. induction items as [|[k v] items IH]; intros user; simpl.
  - rewrite lookup_empty. by destruct (user !! subkey).
  - rewrite IH. destruct (user !! k) as [w|] eqn:Hk.
    + destruct (user !! subkey) eqn:Hs; [done|].
      rewrite lookup_insert_ne; [done|]. intros ->. congruence.
    + destruct (decide (k = subkey)) as [->|Hne].
      * by rewrite !lookup_insert_eq, Hk.
      * by rewrite !lookup_insert_ne.
Qed.

Lemma merge_section_lookup_eq (config : gmap string value) key items :
  merge_section config (key, items) !! key = merged_value (config !! key) items.
Proof.
  unfold merge_section, merged_value; simpl.
  destruct (config !! key) as [[]|] eqn:Hk;
    rewrite ?lookup_insert_eq; done.
Qed.

Lemma merge_section_lookup_ne (config : gmap string value) kv key :
  kv.1 ≠ key → merge_section config kv !! key = config !! key.
Proof.
  intros Hne. unfold merge_section.
  destruct (config !! kv.1) as [[]|];
    rewrite ?lookup_insert_ne; done.
Qed.

Lemma foldl_merge_section_lookup dflts :
  NoDup dflts.*1 →
  ∀ (config : gmap string value) key,
    foldl merge_section config dflts !! key =
    match (list_to_map dflts : gmap string _) !! key with
    | Some items => merged_value (config !! key) items
    | None => config !! key
    end.
Proof.
  induction dflts as [|[k items] dflts IH]; intros Hnd config key; simpl.
  - by rewrite lookup_empty.
  - apply NoDup_cons in Hnd as [Hk Hnd]. rewrite IH by done.
    destruct (decide (k = key)) as [->|Hne].
    + rewrite lookup_insert_eq.
      rewrite (not_elem_of_list_to_map_1 dflts key) by done.
      apply merge_section_lookup_eq.
    + rewrite lookup_insert_ne by done.
      by rewrite merge_section_lookup_ne.
Qed.

Lemma defaults_keys_NoDup : NoDup defaults.*1.
Proof. apply (bool_decide_unpack _). vm_compute. exact I. Qed.

Lemma merge_defaults_lookup (config : gmap string value) key :
  merge_defaults config !! key =
  match (list_to_map defaults : gmap string _) !! key with
  | Some items => merged_value (config !! key) items
  | None => config !! key
  end.
Proof. apply foldl_merge_section_lookup, defaults_keys_NoDup. Qed.

Lemma merge_defaults_empty : merge_defaults ∅ = all_defaults.
Proof. vm_compute. reflexivity. Qed.

(** C1, as amended: a configuration file that is absent, empty, or holds a
    value that is not a mapping resolves to the all-defaults configuration.
    (Text the YAML parser rejects is the remaining state; there the
    parser's exception leaves [load_config].) *)
Theorem load_config_falls_back_to_defaults (f : config_file) :
  f = Absent ∨ f = Loaded VNone ∨ (∃ v, f = Loaded v ∧ is_dict v = false) →
  load_config f = Ok all_defaults.
Proof.
  intros [->|[->|(v & -> & Hv)]]; simpl.
  - by rewrite merge_defaults_empty.
  - by rewrite merge_defaults_empty.
  - destruct v; try discriminate Hv; by rewrite merge_defaults_empty.
Qed.

Lemma load_config_falls_back_to_defaults_witness :
  load_config (Loaded (VList [VStr "alex"])) = Ok all_defaults.
Proof.
  apply (load_config_falls_back_to_defaults (Loaded (VList [VStr "alex"]))).
  right; right. exists (VList [VStr "alex"]). split; reflexivity.
Defined.

(** C1, as stated, fails for a file whose text is not YAML: the file can
    not be read as a mapping, and [load_config] raises. *)
Lemma load_config_malformed_raises :
  load_config Malformed = Raise YAMLError ∧
  load_config Malformed ≠ Ok all_defaults.
Proof. split; [reflexivity|discriminate]. Qed.

(** C3: the merge is per nested key.  A section the loaded mapping lacks
    is the default section; where the loaded mapping holds a mapping under
    the section's key, the result holds the user's value for every subkey
    the user supplied and the default for every other subkey.  With
    [{model: {temperature: 0.9}}] the result has temperature 0.9 and
    speed 1.0. *)
Theorem merge_is_per_nested_key (config : gmap string value)
    (key : string) (items : list (string * value)) :
  (key, items) ∈ defaults →
  ∃ resolved,
    load_config (Loaded (VDict config)) = Ok resolved ∧
    (config !! key = None →
     resolved !! key = Some (VDict (section_dict items))) ∧
    (∀ user, config !! key = Some (VDict user) →
       ∃ merged, resolved !! key = Some (VDict merged) ∧
         ∀ subkey, merged !! subkey =
                   match user !! subkey with
                   | Some v => Some v
                   | None => section_dict items !! subkey
                   end) ∧
    (∃ partial model,
       load_config
         (Loaded (VDict {[ "model" :=
                             VDict {[ "temperature" := VFloat (9 # 10)%Q ]} ]}))
       = Ok partial ∧
       partial !! "model" = Some (VDict model) ∧
       model !! "temperature" = Some (VFloat (9 # 10)%Q) ∧
       model !! "speed" = Some (VFloat (1 # 1)%Q)).
Proof.
  intros Hin. exists (merge_defaults config). split; [done|].
  assert ((list_to_map defaults : gmap string _) !! key = Some items) as Hd.
  { apply elem_of_list_to_map_1; [apply defaults_keys_NoDup|done]. }
  split; [|split].
  - intros Hk. by rewrite merge_defaults_lookup, Hd, Hk.
  - intros user Hk. exists (fill_missing items user). split.
    + by rewrite merge_defaults_lookup, Hd, Hk.
    + intros subkey. apply fill_missing_lookup.
  - eexists _, _. split; [reflexivity|].
    split; [vm_compute; reflexivity|].
    split; vm_compute; reflexivity.
Qed.

Lemma merge_is_per_nested_key_witness :
  ∃ resolved,
    load_config (Loaded (VDict {[ "voices" := VDict ∅ ]})) = Ok resolved ∧
    resolved !! "output" = Some (VDict (section_dict output_defaults)).
Proof.
  destruct (merge_is_per_nested_key {[ "voices" := VDict ∅ ]}
              "output" output_defaults) as (resolved & Hload & Habsent & _).
  - unfold defaults. set_solver.
  - exists resolved. split; [exact Hload|]. apply Habsent. reflexivity.
Defined.

End ConfigFacts.

(** ** Voice resolution *)

Section VoiceFacts.
Import Voice.


Lemma probe_none files voice_name exts :
  probe files voice_name exts = None ↔
  ∀ ext, ext ∈ exts → candidate voice_name ext ∉ files.
Proof.
  induction exts as [|ext0 exts IH]; simpl.
  - split; [|done]. intros _ ext Hin. by apply elem_of_nil in Hin.
  - destruct (decide (candidate voice_name ext0 ∈ files)) as [Hin|Hnin].
    + split; [discriminate|]. intros H.
      destruct (H ext0); [apply elem_of_cons; by left|done].
    + rewrite IH. split.
      * intros H ext [->|?]%elem_of_cons; auto.
      * intros H ext ?. apply H. apply elem_of_cons; by right.
Qed.

(** A voice the configuration declares with a [sample_path] resolves to
    that path, whatever the [voices/] directory holds. *)
Lemma declared_voice_resolves (config : gmap string value) files
    (vs entry : gmap string value) voice_name p :
  config !! "voices" = Some (VDict vs) →
  vs !! voice_name = Some (VDict entry) →
  entry !! "sample_path" = Some p →
  get_voice_sample_path config files voice_name = Ok p.
Proof.
  intros Hv Hn Hp. unfold get_voice_sample_path.
  rewrite Hv; simpl. rewrite Hn; simpl. by rewrite Hp.
Qed.

(** A voice the configuration does not declare is looked up in [voices/];
    when no candidate exists the error names that directory. *)
Lemma undeclared_voice_probes (config : gmap string value) files
    (vs : gmap string value) voice_name :
  config !! "voices" = Some (VDict vs) →
  vs !! voice_name = None →
  get_voice_sample_path config files voice_name =
  match probe files voice_name [".wav"; ".mp3"; ".flac"] with
  | Some p => Ok (VStr p)
  | None =>
      Raise (FileNotFoundError
               ("Voice sample '" +:+ voice_name +:+
                "' not found. Please add it to voices/ directory or config.yaml"))
  end.
Proof.
  intros Hv Hn. unfold get_voice_sample_path.
  rewrite Hv; simpl. by rewrite Hn.
Qed.

(** C4, at the input where the code departs from it: the configuration
    declares the voice [alex] without a [sample_path] and the file
    [voices/alex.wav] exists.  The method neither returns that file nor
    raises the voice-not-found error: it returns [None]. *)
Theorem declared_voice_shadows_directory :
  get_voice_sample_path
    (<["voices" := VDict {[ "alex" := VDict ∅ ]}]> Config.all_defaults)
    {[ "voices/alex.wav" ]} "alex" = Ok VNone ∧
  probe {[ "voices/alex.wav" ]} "alex" extensions = Some "voices/alex.wav".
Proof. split; vm_compute; reflexivity. Qed.

End VoiceFacts.

(** ** The orchestrator *)

Section SynthFacts.
Import Synth.
Context `{B : Backend}.

Local Ltac run := unfold mbind, M_bind, and_then, mret, M_ret, ret, lift,
  get, raise; simpl.

Lemma config_item_run key (m : machine) :
  config_item key m = (getitem (VDict (config m)) key, m).
Proof. reflexivity. Qed.

Lemma initialize_model_run (m : machine) :
  initialize_model m =
  match tts m with
  | Some _ => (Ok tt, m)
  | None =>
      match engine_of m with
      | Ok e => set_tts e m
      | Raise x => (Raise x, m)
      end
  end.
Proof.
  unfold initialize_model, engine_of. run.
  destruct (tts m); [done|].
  destruct (config m !! "model") as [model|]; simpl; [|done].
  destruct (getitem model "name"); simpl; [|done].
  by destruct (load_model a).
Qed.

(** Initialisation leaves the configuration and the file system alone, and
    a well-formed cloner stays well-formed with a model loaded. *)
Lemma initialize_model_ok (m m' : machine) :
  initialize_model m = (Ok tt, m') →
  config m' = config m ∧ files m' = files m ∧
  descriptors m' = descriptors m ∧ output_dir m' = output_dir m ∧
  log m' = log m ∧ (∃ e, tts m' = Some e ∧ engine_of m = Ok e) ∧
  (well_formed m → ∃ d, config m' !! "model" = Some (VDict d)).
Proof.
  rewrite initialize_model_run. unfold well_formed.
  destruct (tts m) as [e|] eqn:Ht.
  - intros [= <-]. unfold engine_of. rewrite Ht.
    split_and!; try done; [by eexists|].
    intros Hwf. apply Hwf. by eexists.
  - destruct (engine_of m) as [e|x] eqn:He; [|discriminate].
    intros [= <-]; simpl. split_and!; try done; [by eexists|].
    intros _. unfold engine_of in He. rewrite Ht in He. simpl in He.
    destruct (config m !! "model") as [[]|]; simplify_eq/=. by eexists.
Qed.

Lemma validate_voice_sample_state audio_path (m m' : machine) r :
  validate_voice_sample audio_path m = (r, m') → m' = m.
Proof.
  unfold validate_voice_sample, path_exists. run.
  destruct audio_path; simpl; try (by intros [= _ <-]);
    case_bool_decide; simpl;
    try (by intros [= _ <-]);
    destruct (decode_ms _); by intros [= _ <-].
Qed.

Lemma resolve_setting_run given key dflt (m : machine) :
  resolve_setting given key dflt m =
  (match given with
   | VNone => model ← getitem (VDict (config m)) "model";
              dict_get model key dflt
   | _ => Ok given
   end, m).
Proof.
  unfold resolve_setting. destruct given; try reflexivity.
  run. destruct (config m !! "model") as [model|]; simpl; [|done].
  by destruct (dict_get model key dflt).
Qed.

(** Once the [model] section is a mapping, resolving a setting never
    raises. *)
Lemma resolve_setting_ok given key dflt (m : machine) d :
  config m !! "model" = Some (VDict d) →
  ∃ v, resolve_setting given key dflt m = (Ok v, m).
Proof.
  intros Hd. rewrite resolve_setting_run.
  destruct given; simpl; rewrite ?Hd; simpl; by eexists.
Qed.

(** C10: the temperature does not reach the engine.  For a cloner in any
    state it can be in, two calls of [generate_speech] that differ only in
    the temperature argument (given, or [None] and so taken from the
    configuration or the default) have the same outcome: the same result
    or exception, the same files, and the same engine calls with the same
    text, speaker reference, language and speed. *)
Theorem temperature_does_not_reach_engine (m : machine) text voice_sample_path
    output_path language (temperature1 temperature2 speed : value) :
  well_formed m →
  generate_speech text voice_sample_path output_path language
    temperature1 speed m =
  generate_speech text voice_sample_path output_path language
    temperature2 speed m.
Proof.
  intros Hwf. unfold generate_speech, mbind, M_bind, and_then.
  destruct (initialize_model m) as [[[]|x] m1] eqn:Hinit; [|done].
  apply initialize_model_ok in Hinit as (_ & _ & _ & _ & _ & _ & Hmodel).
  destruct (Hmodel Hwf) as [d Hd].
  destruct (validate_voice_sample voice_sample_path m1) as [[a|x] m2] eqn:Hval;
    [|done].
  apply validate_voice_sample_state in Hval as ->.
  destruct (resolve_setting_ok temperature1 "temperature"
              (VFloat (7 # 10)%Q) m1 d Hd) as [v1 ->].
  destruct (resolve_setting_ok temperature2 "temperature"
              (VFloat (7 # 10)%Q) m1 d Hd) as [v2 ->].
  reflexivity.
Qed.

(** C9: a voice the configuration declares with an entry that has no
    [sample_path] resolves to [None], whatever [voices/] holds and without
    the voice-not-found error.  Single-text mode hands that [None] to
    [generate_speech], whose validation of the voice sample is the first
    thing to receive it and fails on it with a type error, so the run ends
    with status 1. *)
Theorem declared_voice_without_sample_path (m : machine)
    (vs entry : gmap string value) voice text output language
    (temperature speed : value) :
  config m !! "voices" = Some (VDict vs) →
  vs !! voice = Some (VDict entry) →
  entry !! "sample_path" = None →
  get_voice_sample_path voice m = (Ok VNone, m) ∧
  validate_voice_sample VNone m = (Raise TypeError, m) ∧
  (∀ m1, initialize_model m = (Ok tt, m1) →
     generate_speech text VNone (Rel <$> output) language temperature speed m
     = (Raise TypeError, m1)) ∧
  (text ≠ "" →
   main_single voice text output language temperature speed m =
   (1%Z, (generate_speech text VNone (Rel <$> output) language
            temperature speed m).2)).
Proof.
  intros Hv Hn Hp.
  assert (get_voice_sample_path voice m = (Ok VNone, m)) as Hget.
  { unfold get_voice_sample_path, Voice.get_voice_sample_path. run.
    rewrite Hv; simpl. rewrite Hn; simpl. by rewrite Hp. }
  assert (∀ m1, initialize_model m = (Ok tt, m1) →
     generate_speech text VNone (Rel <$> output) language temperature speed m
     = (Raise TypeError, m1)) as Hgen.
  { intros m1 Hinit. unfold generate_speech, mbind, M_bind, and_then.
    by rewrite Hinit. }
  split_and!; [done|done|done|].
  intros Htext. unfold main_single. rewrite Hget.
  destruct (decide (text = "")); [done|].
  destruct (initialize_model m) as [[[]|x] m1] eqn:Hinit.
  - by rewrite (Hgen m1 eq_refl).
  - unfold generate_speech, mbind, M_bind, and_then. by rewrite Hinit.
Qed.

(** The tail of [generate_speech] returns the path it was given. *)
Lemma synthesis_returns_its_path text voice_sample_path language speed
    output_path (m m' : machine) p :
  (m0 ← get;
   match tts m0 with
   | None => raise AttributeError
   | Some e =>
       emit (Synthesize text voice_sample_path language speed);;
       lift (synthesize e text voice_sample_path language speed);;
       let temp_path := add_suffix output_path ".temp.wav" in
       write_file temp_path;;
       post_process_audio temp_path output_path;;
       remove_file temp_path;;
       ret output_path
   end) m = (Ok p, m') →
  p = output_path.
Proof.
  run. destruct (tts m) as [e|]; [|discriminate].
  destruct (synthesize e text voice_sample_path language speed);
    simpl; [|discriminate].
  destruct (post_process_audio _ _ _) as [[[]|x] m2]; [|discriminate].
  by intros [= <- _].
Qed.

Lemma string_length_app (s t : string) :
  String.length (s +:+ t) = String.length s + String.length t.
Proof. induction s as [|a s IH]; [done|]. unfold String.app in *; simpl. lia. Qed.

Lemma string_app_inj_r (s1 s2 t : string) : s1 +:+ t = s2 +:+ t → s1 = s2.
Proof.
  revert s2. induction s1 as [|a s1 IH]; intros [|b s2] H.
  - done.
  - apply (f_equal String.length) in H.
    rewrite !string_length_app in H. simpl in H. lia.
  - apply (f_equal String.length) in H.
    rewrite !string_length_app in H. simpl in H. lia.
  - unfold String.app in H; simpl in H. injection H as -> H.
    f_equal. by apply IH.
Qed.

Lemma numbered_name_inj (a b : nat) :
  numbered_name a = numbered_name b → a = b.
Proof.
  intros H. unfold numbered_name in H.
  apply (inj (String.app "output_")) in H.
  apply string_app_inj_r in H. by apply (inj pretty) in H.
Qed.

(** C2, as amended: with no output path given, a call that succeeds
    returns [output/output_N.wav] with [N] one more than the number of
    entries [output/] had, a function of the directory listing alone; and
    when those entries are files of this scheme numbered up to their count
    (as after that many calls into an empty directory), the file does not
    exist yet. *)
Theorem auto_numbered_output_path (m m' : machine) text voice_sample_path
    language (temperature speed : value) p :
  generate_speech text voice_sample_path None language temperature speed m =
  (Ok p, m') →
  p = InOutput (numbered_name (size (output_dir m) + 1)) ∧
  ((∀ name, name ∈ output_dir m →
      ∃ k : nat, (1 ≤ k ≤ size (output_dir m))%nat ∧ name = numbered_name k) →
   numbered_name (size (output_dir m) + 1) ∉ output_dir m).
Proof.
  intros Hrun. split.
  - revert Hrun. unfold generate_speech at 1.
    unfold mbind at 1 2 3 4 5, M_bind at 1 2 3 4 5, and_then.
    destruct (initialize_model m) as [[[]|x] m1] eqn:Hinit; [|discriminate].
    apply initialize_model_ok in Hinit as (_ & _ & _ & <- & _).
    destruct (validate_voice_sample voice_sample_path m1) as [[a|x] m2]
      eqn:Hval; [|discriminate].
    apply validate_voice_sample_state in Hval as ->.
    rewrite !resolve_setting_run.
    destruct (match temperature with VNone => _ | _ => _ end);
      [|discriminate].
    destruct (match speed with VNone => _ | _ => _ end); [|discriminate].
    change ((m0 ← get; ret (default_output_path (output_dir m0))) m1)
      with (Ok (default_output_path (output_dir m1)), m1).
    intros Htail. by apply synthesis_returns_its_path in Htail.
  - intros Hscheme Hin. destruct (Hscheme _ Hin) as (k & Hk & Heq).
    apply numbered_name_inj in Heq. lia.
Qed.

(** One call of batch mode on a ready cloner: the outcome is the engine's,
    and the cloner stays ready. *)
Lemma generate_speech_ready (m : machine) e p text (out : option string)
    language :
  ready m e p →
  let n := default (numbered_name (size (output_dir m) + 1)) out in
  ∃ m',
    generate_speech text (VStr p) (InOutput <$> out) language VNone VNone m =
    (match synthesize e text (VStr p) language
             (configured_speed (config m)) with
     | Ok _ => Ok (InOutput n)
     | Raise x => Raise x
     end, m') ∧
    config m' = config m ∧ tts m' = Some e ∧ files m' = files m ∧
    log m' =
    (log m ++
     Synthesize text (VStr p) language (configured_speed (config m)) ::
       match synthesize e text (VStr p) language
               (configured_speed (config m)) with
       | Ok _ => [Export (InOutput (exported_name (config m) n))]
       | Raise _ => []
       end)%list ∧
    output_dir m' =
    match synthesize e text (VStr p) language
            (configured_speed (config m)) with
    | Ok _ =>
        ({[ exported_name (config m) n ]} ∪
         ({[ n +:+ ".temp.wav" ]} ∪ output_dir m)) ∖ {[ n +:+ ".temp.wav" ]}
    | Raise _ => output_dir m
    end.
Proof.
  intros (He & [dm Hm] & [dout Hout] & Hp & [ms Hms]) n. subst n.
  unfold generate_speech.
  unfold mbind at 1, M_bind at 1, and_then at 1.
  rewrite initialize_model_run.
  set (m1 := {| config := config m; tts := Some e; files := files m;
                descriptors := descriptors m; output_dir := output_dir m;
                log := log m |}).
  assert (match tts m with
          | Some _ => (Ok tt, m)
          | None => match engine_of m with
                    | Ok e0 => set_tts e0 m
                    | Raise x => (Raise x, m)
                    end
          end = (Ok tt, m1)) as ->.
  { unfold engine_of in *. destruct m as [c [t|] f d o l]; simpl in *.
    - by simplify_eq.
    - by rewrite He. }
  unfold mbind at 1, M_bind at 1, and_then at 1.
  assert (validate_voice_sample (VStr p) m1 = (Ok (advice_for ms), m1)) as ->.
  { unfold validate_voice_sample, path_exists. run.
    rewrite bool_decide_eq_true_2 by done. simpl. by rewrite Hms. }
  assert (∀ key dflt, resolve_setting VNone key dflt m1 =
                      (Ok (default dflt (dm !! key)), m1)) as Hres.
  { intros key dflt. rewrite resolve_setting_run. simpl. by rewrite Hm. }
  unfold mbind at 1, M_bind at 1, and_then at 1. rewrite Hres.
  unfold mbind at 1, M_bind at 1, and_then at 1. rewrite Hres.
  unfold configured_speed, exported_name. rewrite Hm, Hout.
  set (speed := default (VFloat (1 # 1)%Q) (dm !! "speed")).
  unfold post_process_audio, config_item.
  destruct out as [name|]; run; rewrite Hout; simpl;
    (destruct (synthesize e text (VStr p) language speed) as [[]|x]; simpl;
     [|eexists; split; [reflexivity|]; by simpl]);
    (destruct (is_mp3 (default (VStr "wav") (dout !! "format"))); simpl;
     (eexists; split; [reflexivity|]; simpl; split_and!; try done;
      by rewrite <-app_assoc)).
Qed.

Lemma ready_preserved (m m' : machine) e p :
  ready m e p →
  config m' = config m → files m' = files m →
  tts m' = Some e ∨ tts m' = tts m →
  ready m' e p.
Proof.
  intros (He & Hm & Hout & Hp & Hms) Hc Hf Ht.
  unfold ready. rewrite Hc, Hf. split_and!; try done.
  unfold engine_of in *. rewrite Hc.
  destruct Ht as [->| ->]; done.
Qed.






(** *** Successive auto-numbered calls *)

Lemma elem_of_numbered_dir name n :
  name ∈ numbered_dir n ↔
  ∃ k : nat, (1 ≤ k ≤ n)%nat ∧ name = numbered_name k.
Proof.
  unfold numbered_dir. rewrite elem_of_list_to_set, list_elem_of_fmap.
  split.
  - intros (k & -> & Hk%elem_of_seq). exists k. split; [lia|done].
  - intros (k & Hk & ->). exists k. split; [done|].
    apply elem_of_seq. lia.
Qed.

Lemma size_numbered_dir n : size (numbered_dir n) = n.
Proof.
  unfold numbered_dir. rewrite size_list_to_set.
  - by rewrite length_fmap, length_seq.
  - apply NoDup_fmap_2; [|apply NoDup_seq].
    intros a b. apply numbered_name_inj.
Qed.

Lemma numbered_dir_S n :
  numbered_dir (S n) = {[ numbered_name (S n) ]} ∪ numbered_dir n.
Proof.
  apply set_eq. intros name.
  rewrite elem_of_union, elem_of_singleton, !elem_of_numbered_dir.
  split.
  - intros (k & Hk & ->).
    destruct (decide (k = S n)) as [->|]; [by left|].
    right. exists k. split; [lia|done].
  - intros [->|(k & Hk & ->)]; eexists; (split; [|done]); lia.
Qed.

(** The decimal rendering of a number holds no dot. *)
Lemma pretty_N_go_no_dot (x : N) (s : string) :
  (∀ s1 s2, s ≠ s1 +:+ String "."%char s2) →
  ∀ s1 s2, pretty_N_go x s ≠ s1 +:+ String "."%char s2.
Proof.
  revert s. induction (N.lt_wf_0 x) as [x _ IH]; intros s Hs.
  assert (x = 0 ∨ 0 < x)%N as [->|Hx] by lia.
  - by rewrite pretty_N_go_0.
  - rewrite pretty_N_go_step by done. apply IH.
    { by apply N.div_lt. }
    intros [|a s1] s2; unfold String.app; simpl.
    + unfold pretty_N_char. by repeat case_match.
    + intros [= _ Heq]. by apply (Hs s1 s2).
Qed.

Lemma pretty_nat_no_dot (n : nat) (s1 s2 : string) :
  pretty n ≠ s1 +:+ String "."%char s2.
Proof.
  unfold pretty, pretty_nat, pretty, pretty_N.
  destruct (decide (N.of_nat n = 0)%N).
  - destruct s1 as [|a [|b s1]]; unfold String.app; simpl; discriminate.
  - apply pretty_N_go_no_dot.
    intros [|a t1] t2; unfold String.app; simpl; discriminate.
Qed.

(** Two texts without a dot, each followed by a dot and a rest, agree only
    when both parts agree. *)
Lemma split_at_first_dot (a b r1 r2 : string) :
  (∀ s1 s2, a ≠ s1 +:+ String "."%char s2) →
  (∀ s1 s2, b ≠ s1 +:+ String "."%char s2) →
  a +:+ String "."%char r1 = b +:+ String "."%char r2 →
  a = b ∧ r1 = r2.
Proof.
  revert b. induction a as [|c a IH]; intros [|d b] Ha Hb;
    unfold String.app; simpl; fold String.app.
  - by intros [= ->].
  - intros [= <- _]. by destruct (Hb "" b).
  - intros [= -> _]. by destruct (Ha "" a).
  - intros [= -> Heq]. destruct (IH b) as [-> ->]; try done.
    + intros s1 s2 ->. by apply (Ha (String d s1) s2).
    + intros s1 s2 ->. by apply (Hb (String d s1) s2).
Qed.

Lemma string_app_assoc (a b c : string) : (a +:+ b) +:+ c = a +:+ (b +:+ c).
Proof.
  induction a as [|x a IH]; [done|].
  unfold String.app in *; simpl. by rewrite IH.
Qed.

(** The transient file of a numbered output is no numbered output. *)
Lemma temp_name_not_numbered (n k : nat) :
  numbered_name n +:+ ".temp.wav" ≠ numbered_name k.
Proof.
  unfold numbered_name. rewrite !string_app_assoc. intros H.
  apply (inj (String.app "output_")) in H.
  change (".wav" +:+ ".temp.wav") with (String "."%char "wav.temp.wav") in H.
  change ".wav" with (String "."%char "wav") in H.
  apply split_at_first_dot in H as [_ H];
    [discriminate H|apply pretty_nat_no_dot..].
Qed.

(** A directory that holds exactly the files numbered 1 to [n] holds,
    after one more successful call without an output path and with the
    [wav] format, exactly the files numbered 1 to [n + 1]: the scheme
    keeps the condition under which it does not overwrite. *)
Lemma numbered_dir_invariant (m : machine) e p text language n :
  ready m e p →
  (∀ name, exported_name (config m) name = name) →
  output_dir m = numbered_dir n →
  synthesize e text (VStr p) language (configured_speed (config m)) = Ok tt →
  ∃ m',
    generate_speech text (VStr p) None language VNone VNone m =
    (Ok (InOutput (numbered_name (S n))), m') ∧
    (numbered_name (S n) ∉ output_dir m) ∧
    output_dir m' = numbered_dir (S n) ∧
    ready m' e p.
Proof.
  intros Hready Hwav Hdir Hok.
  destruct (generate_speech_ready m e p text None language Hready)
    as (m' & Hrun & Hc & Ht & Hf & _ & Hout).
  simpl in Hrun, Hout.
  rewrite Hdir, size_numbered_dir, Hwav in Hout.
  rewrite Hdir, size_numbered_dir in Hrun.
  replace (n + 1) with (S n) in * by lia.
  rewrite Hok in Hrun, Hout.
  exists m'. split; [done|]. split_and!.
  - rewrite Hdir, elem_of_numbered_dir. intros (k & Hk & Heq).
    apply numbered_name_inj in Heq. lia.
  - rewrite Hout, numbered_dir_S. apply set_eq. intros name.
    rewrite elem_of_difference, !elem_of_union, !elem_of_singleton.
    split; [intros [[?|[?|?]] ?]; tauto|].
    intros [->|Hin].
    + split; [by left|]. intros Heq.
      apply (f_equal String.length) in Heq.
      rewrite string_length_app in Heq. simpl in Heq. lia.
    + split; [right; by right|]. intros ->.
      apply elem_of_numbered_dir in Hin as (k & _ & Heq).
      by apply temp_name_not_numbered in Heq.
  - eapply ready_preserved; eauto.
Qed.

(** *** The states a cloner can reach *)

Lemma fresh_well_formed cfg voices entries :
  well_formed (fresh cfg voices entries).
Proof. intros [e He]. discriminate He. Qed.

Lemma post_process_audio_cloner input_path output_path (m m' : machine) r :
  post_process_audio input_path output_path m = (r, m') →
  config m' = config m ∧ tts m' = tts m.
Proof.
  unfold post_process_audio, config_item. run.
  destruct (config m !! "output") as [out|]; simpl;
    [|by intros [= _ <-]].
  destruct out; simpl; try (by intros [= _ <-]).
  destruct (if is_mp3 _ then _ else _); simpl; by intros [= _ <-].
Qed.

Lemma generate_speech_well_formed text voice_sample_path output_path language
    temperature speed (m m' : machine) r :
  well_formed m →
  generate_speech text voice_sample_path output_path language
    temperature speed m = (r, m') →
  config m' = config m ∧ well_formed m'.
Proof.
  intros Hwf. unfold generate_speech.
  unfold mbind at 1 2 3 4 5, M_bind at 1 2 3 4 5, and_then.
  destruct (initialize_model m) as [[[]|x] m1] eqn:Hinit.
  2:{ rewrite initialize_model_run in Hinit.
      destruct (tts m); [discriminate|].
      destruct (engine_of m); [discriminate|].
      injection Hinit as _ <-. by intros [= _ <-]. }
  apply initialize_model_ok in Hinit as (Hc & _ & _ & _ & _ & _ & Hmodel).
  specialize (Hmodel Hwf).
  assert (∀ m2 : machine, config m2 = config m1 → well_formed m2) as Hgoal.
  { intros m2 Hc2 _. by rewrite Hc2. }
  destruct (validate_voice_sample voice_sample_path m1) as [[a|x] m2] eqn:Hval;
    apply validate_voice_sample_state in Hval as ->;
    [|intros [= _ <-]; auto].
  rewrite !resolve_setting_run.
  destruct (match temperature with VNone => _ | _ => _ end);
    [|intros [= _ <-]; auto].
  destruct (match speed with VNone => _ | _ => _ end);
    [|intros [= _ <-]; auto].
  destruct output_path as [[out|out]|]; run;
    (destruct (tts m1) as [e|]; [|intros [= _ <-]; auto]);
    (destruct (synthesize e _ _ _ _); simpl; [|intros [= _ <-]; auto]);
    (destruct (post_process_audio _ _ _) as [[[]|x] m3] eqn:Hpost;
     apply post_process_audio_cloner in Hpost as [Hc3 _]; simpl in Hc3;
     [|intros [= _ <-]; split; [congruence|by apply Hgoal]]).
  all: intros [= _ <-]; simpl; (split; [congruence|by apply Hgoal]).
Qed.

Lemma process_file_well_formed voice_sample_path language f
    (m m' : machine) r :
  well_formed m →
  process_file voice_sample_path language f m = (r, m') →
  config m' = config m ∧ well_formed m'.
Proof.
  intros Hwf. unfold process_file.
  destruct (decide (strip (content f) = "")).
  - intros [= _ <-]. split; [done|]. exact Hwf.
  - unfold try_except, mbind, M_bind, and_then.
    destruct (generate_speech _ _ _ _ _ _ m) as [[out|x] m1] eqn:Hrun;
      apply generate_speech_well_formed in Hrun as [Hc Hwf1]; try done;
      intros [= _ <-]; [done|]. split; [done|].
    intros Ht. apply Hwf1, Ht.
Qed.

Lemma batch_generate_well_formed input_dir voice language (m m' : machine) r :
  well_formed m →
  batch_generate input_dir voice language m = (r, m') →
  config m' = config m ∧ well_formed m'.
Proof.
  intros Hwf. unfold batch_generate.
  destruct input_dir as [fs|]; [|by intros [= _ <-]].
  unfold get_voice_sample_path. run.
  destruct (Voice.get_voice_sample_path _ _ _) as [v|x]; simpl;
    [|by intros [= _ <-]].
  clear voice. revert m Hwf.
  induction fs as [|f fs IH]; intros m Hwf; simpl.
  - by intros [= _ <-].
  - unfold mbind, M_bind, and_then.
    destruct (process_file v language f m) as [[[]|x] m1] eqn:Hrun;
      apply process_file_well_formed in Hrun as [Hc Hwf1]; try done.
    + intros Hrest. apply IH in Hrest as [Hc2 Hwf2]; [|done].
      split; [congruence|done].
    + by intros [= _ <-].
Qed.

End SynthFacts.

(** ** The orchestrator on a stand-in engine *)

Section Scenarios.
Import Synth.

(** C2, as stated, fails: with the single entry [output_2.wav] in
    [output/], a call without an output path picks [output/output_2.wav],
    a file that exists, and exports over it. *)
Lemma auto_numbered_path_overwrites :
  ∃ m',
    @generate_speech (fake_backend []) "Hello" (VStr "voices/alex.wav") None
      "en" VNone VNone (studio [] {[ "output_2.wav" ]}) =
    (Ok (InOutput "output_2.wav"), m') ∧
    "output_2.wav" ∈ output_dir (studio [] {[ "output_2.wav" ]}) ∧
    Export (InOutput "output_2.wav") ∈ log m'.
Proof.
  eexists. split; [vm_compute; reflexivity|].
  split; [by apply elem_of_singleton|].
  simpl. apply elem_of_cons; right. apply elem_of_cons; by left.
Qed.

(** The scheme from an empty directory: the first file is
    [output_1.wav], and a failing call leaves no file. *)
Example first_output_is_numbered_one :
  (@generate_speech (fake_backend []) "Hello" (VStr "voices/alex.wav") None
     "en" VNone VNone (studio [] ∅)).1 = Ok (InOutput "output_1.wav").
Proof. vm_compute. reflexivity. Qed.

Example engine_failure_leaves_no_file :
  output_dir
    (@generate_speech (fake_backend ["boom"]) "boom" (VStr "voices/alex.wav")
       None "en" VNone VNone (studio ["boom"] ∅)).2 = ∅.
Proof. vm_compute. reflexivity. Qed.

Example missing_voice_sample_is_reported :
  (@generate_speech (fake_backend []) "Hello" (VStr "voices/bob.wav") None
     "en" VNone VNone (studio [] ∅)).1 =
  Raise (FileNotFoundError "Audio file not found: voices/bob.wav").
Proof. vm_compute. reflexivity. Qed.

Example strip_removes_surrounding_blanks :
  strip "  two words  " = "two words" ∧ strip "   " = "".
Proof. split; vm_compute; reflexivity. Qed.

Example replace_wav_all_occurrences :
  replace_wav "take.wav.final.wav" = "take.mp3.final.mp3".
Proof. vm_compute. reflexivity. Qed.

Lemma auto_numbered_output_path_witness :
  InOutput "output_2.wav" =
  InOutput (numbered_name (size (output_dir (studio [] {[ "output_1.wav" ]}))
                           + 1)) ∧
  numbered_name (size (output_dir (studio [] {[ "output_1.wav" ]})) + 1)
  ∉ output_dir (studio [] {[ "output_1.wav" ]}).
Proof.
  destruct (@auto_numbered_output_path (fake_backend [])
              (studio [] {[ "output_1.wav" ]})
              (@generate_speech (fake_backend []) "Hello"
                 (VStr "voices/alex.wav") None "en" VNone VNone
                 (studio [] {[ "output_1.wav" ]})).2
              "Hello" (VStr "voices/alex.wav") "en" VNone VNone
              (InOutput "output_2.wav")) as [Hpath Hfresh].
  - vm_compute; reflexivity.
  - split; [exact Hpath|]. apply Hfresh.
    change (output_dir (studio [] {[ "output_1.wav" ]}))
      with ({[ "output_1.wav" ]} : gset string).
    intros name Hname. apply elem_of_singleton in Hname as ->.
    exists 1. split; [|vm_compute; reflexivity].
    rewrite size_singleton. lia.
Defined.

Lemma temperature_does_not_reach_engine_witness :
  @generate_speech (fake_backend []) "Hello" (VStr "voices/alex.wav") None
    "en" (VFloat (2 # 10)%Q) VNone (studio [] ∅) =
  @generate_speech (fake_backend []) "Hello" (VStr "voices/alex.wav") None
    "en" VNone VNone (studio [] ∅).
Proof.
  apply (@temperature_does_not_reach_engine (fake_backend [])).
  intros [e He]. discriminate He.
Defined.

Lemma declared_voice_without_sample_path_witness :
  @get_voice_sample_path (fake_backend []) "alex"
    (@fresh (fake_backend [])
       (<["voices" := VDict {[ "alex" := VDict ∅ ]}]> Config.all_defaults)
       {[ "voices/alex.wav" ]} ∅) =
  (Ok VNone,
   @fresh (fake_backend [])
     (<["voices" := VDict {[ "alex" := VDict ∅ ]}]> Config.all_defaults)
     {[ "voices/alex.wav" ]} ∅).
Proof.
  refine (proj1 (@declared_voice_without_sample_path (fake_backend [])
                   _ {[ "alex" := VDict ∅ ]} ∅ "alex" "Hello" None "en"
                   VNone VNone _ _ _)).
  - vm_compute; reflexivity.
  - vm_compute; reflexivity.
  - vm_compute; reflexivity.
Defined.


End Scenarios.

(** ** Loudness normalisation *)

Section PostProcessFacts.
Import PostProcess.
Local Open Scope R_scope.

Lemma sum_R_cons (x : R) (l : list R) : sum_R (x :: l) = x + sum_R l.
Proof. reflexivity. Qed.




Lemma root_mean_square_nonneg (l : list R) : 0 <= root_mean_square l.
Proof. destruct l; simpl; [lra|apply sqrt_pos]. Qed.


Lemma max_possible_amplitude_pos a : 0 < max_possible_amplitude a.
Proof.
  unfold max_possible_amplitude.
  apply Rdiv_lt_0_compat; [apply pow_lt|]; lra.
Qed.


Lemma ln_10_pos : 0 < ln 10.
Proof. rewrite <-ln_1. apply ln_increasing; lra. Qed.




(** Every segment that is not silent is normalised. *)
Lemma normalize_audio_defined (a : audio_segment) :
  rms a ≠ 0 ↔ is_Some (normalize_audio a).
Proof.
  unfold normalize_audio, dBFS, decibels.
  pose proof (max_possible_amplitude_pos a) as HM.
  destruct (Req_dec_T (rms a / max_possible_amplitude a) 0) as [Hz|Hnz].
  - split; [|by intros [? ?]]. intros Hrms. exfalso. apply Hrms.
    apply (Rmult_eq_compat_r (max_possible_amplitude a)) in Hz.
    unfold Rdiv in Hz. rewrite Rmult_assoc, Rinv_l in Hz; lra.
  - split; [by eexists|]. intros _ Hrms. apply Hnz.
    rewrite Hrms. unfold Rdiv. lra.
Qed.

Example unit_tone_is_normalised :
  is_Some (normalize_audio {| samples := [1; -1]; sample_width := 2 |}).
Proof.
  apply normalize_audio_defined. unfold rms, root_mean_square, mean. simpl.
  replace ((1 * 1 + (-1 * -1 + 0)) / (1 + 1)) with 1 by lra.
  rewrite sqrt_1. lra.
Qed.

End PostProcessFacts.

(** ** Soft noise gating *)

Section NoiseGateFacts.
Import Recorder.

Lemma virtual_index_bounds (n : nat) (q : Q) :
  (0 <= q)%Q → (q <= 100)%Q → (1 ≤ n)%nat →
  (0 <= (inject_Z (Z.of_nat n) - 1) * (q / 100))%Q ∧
  ((inject_Z (Z.of_nat n) - 1) * (q / 100) <= inject_Z (Z.of_nat n - 1))%Q.
Proof.
  intros Hq0 Hq1 Hn.
  assert (1 <= inject_Z (Z.of_nat n))%Q as Hn'.
  { change 1%Q with (inject_Z 1). rewrite <-Zle_Qle. lia. }
  assert (inject_Z (Z.of_nat n - 1) == inject_Z (Z.of_nat n) - 1)%Q as ->.
  { unfold Z.sub. rewrite inject_Z_plus, inject_Z_opp. reflexivity. }
  set (a := inject_Z (Z.of_nat n)) in *.
  assert (q / 100 == q * (1 # 100))%Q as -> by reflexivity.
  split; Lqa.nra.
Qed.

(** The index below the virtual index is a position of the array. *)
Lemma previous_index_bound (n : nat) (q : Q) :
  (0 <= q)%Q → (q <= 100)%Q → (1 ≤ n)%nat →
  (Z.to_nat (Qfloor ((inject_Z (Z.of_nat n) - 1) * (q / 100))) ≤ n - 1)%nat.
Proof.
  intros Hq0 Hq1 Hn.
  destruct (virtual_index_bounds n q Hq0 Hq1 Hn) as [_ Hhi].
  apply Qfloor_resp_le in Hhi. rewrite Qfloor_Z in Hhi. lia.
Qed.

(** Every array that is not empty has a percentile. *)
Lemma np_percentile_defined (a : list Q) (q : Q) :
  a ≠ [] → (0 <= q)%Q → (q <= 100)%Q → is_Some (np_percentile a q).
Proof.
  intros Ha Hq0 Hq1. unfold np_percentile.
  assert (1 ≤ length a)%nat as Hn by (destruct a; [done|simpl; lia]).
  pose proof (previous_index_bound (length a) q Hq0 Hq1 Hn) as Hprev.
  assert (length (merge_sort Qle a) = length a) as Hlen.
  { apply Permutation_length, merge_sort_Permutation. }
  set (previous := Z.to_nat _) in *.
  destruct (lookup_lt_is_Some_2 (merge_sort Qle a) previous) as [lo ->];
    [lia|].
  destruct (lookup_lt_is_Some_2 (merge_sort Qle a)
              (Nat.min (previous + 1) (length a - 1))) as [hi ->]; [lia|].
  by eexists.
Qed.

Lemma StronglySorted_lookup_le (l : list Q) i j x y :
  StronglySorted Qle l →
  l !! i = Some x → l !! j = Some y → (i ≤ j)%nat → (x <= y)%Q.
Proof.
  intros Hsorted. revert i j.
  induction Hsorted as [|z l Hsorted IH Hall]; intros i j Hi Hj Hij.
  - by rewrite lookup_nil in Hi.
  - destruct i as [|i], j as [|j]; simplify_eq/=.
    + apply Qle_refl.
    + rewrite Forall_forall in Hall. apply Hall.
      by eapply list_elem_of_lookup_2.
    + lia.
    + eapply IH; eauto. lia.
Qed.

(** The percentile lies between the two neighbours of the virtual index in
    the sorted array: the elements up to index ⌊(n - 1)·q/100⌋ are at most
    the percentile, the elements after it at least the percentile. *)
Lemma np_percentile_between (a : list Q) (q floor : Q) :
  (0 <= q)%Q → (q <= 100)%Q →
  np_percentile a q = Some floor →
  let previous :=
    Z.to_nat (Qfloor ((inject_Z (Z.of_nat (length a)) - 1) * (q / 100))) in
  ∃ lo hi,
    merge_sort Qle a !! previous = Some lo ∧
    merge_sort Qle a !! Nat.min (previous + 1) (length a - 1) = Some hi ∧
    (lo <= floor)%Q ∧ (floor <= hi)%Q.
Proof.
  intros Hq0 Hq1. unfold np_percentile.
  set (vi := ((inject_Z (Z.of_nat (length a)) - 1) * (q / 100))%Q).
  set (previous := Z.to_nat (Qfloor vi)).
  destruct (merge_sort Qle a !! previous) as [lo|] eqn:Hlo; [|discriminate].
  destruct (merge_sort Qle a !! Nat.min (previous + 1) (length a - 1))
    as [hi|] eqn:Hhi; [|discriminate].
  simpl. intros [= <-]. exists lo, hi. split; [done|]. split; [done|].
  assert (1 ≤ length a)%nat as Hn.
  { apply lookup_lt_Some in Hlo.
    rewrite (Permutation_length (merge_sort_Permutation Qle a)) in Hlo. lia. }
  destruct (virtual_index_bounds (length a) q Hq0 Hq1 Hn) as [Hvi0 Hvi1].
  fold vi in Hvi0, Hvi1.
  assert (lo <= hi)%Q as Hle.
  { eapply (StronglySorted_lookup_le (merge_sort Qle a)); eauto.
    - apply StronglySorted_merge_sort; apply _.
    - pose proof (previous_index_bound (length a) q Hq0 Hq1 Hn) as Hp.
      fold vi in Hp. fold previous in Hp. lia. }
  assert (inject_Z (Z.of_nat previous) == inject_Z (Qfloor vi))%Q as Hprev.
  { unfold previous. rewrite Z2Nat.id; [reflexivity|].
    exact (Qfloor_resp_le _ _ Hvi0). }
  pose proof (Qfloor_le vi) as Hf0. pose proof (Qlt_floor vi) as Hf1.
  rewrite inject_Z_plus in Hf1. change (inject_Z 1) with 1%Q in Hf1.
  set (gamma := (vi - inject_Z (Z.of_nat previous))%Q).
  assert (0 <= gamma)%Q as Hg0 by (unfold gamma; rewrite Hprev; Lqa.lra).
  assert (gamma <= 1)%Q as Hg1 by (unfold gamma; rewrite Hprev; Lqa.lra).
  split; Lqa.nra.
Qed.

Example percentile_of_eleven_values :
  np_percentile (inject_Z <$> [0; 1; 2; 3; 4; 5; 6; 7; 8; 9; 10]%Z) 10 =
  Some (100 # 100)%Q.
Proof. vm_compute. reflexivity. Qed.

Example percentile_interpolates :
  np_percentile [3; 1; 2]%Q 10 = Some (120 # 100)%Q.
Proof. vm_compute. reflexivity. Qed.

Example gate_at_the_floor :
  reduce_noise (inject_Z <$> [0; -1; 2; 3; 4; 5; 6; 7; 8; 9; 10]%Z) =
  Some [0 # 10; -1 # 10; 2; 3; 4; 5; 6; 7; 8; 9; 10]%Q.
Proof. vm_compute. reflexivity. Qed.

(** C7: soft noise gating.  For every sample of every input array, the
    noise floor is the 10th percentile of the magnitudes, the output has
    one sample per input sample, a sample whose magnitude is below the
    floor is multiplied by 0.1, a sample whose magnitude is above the
    floor is left as it is, and a sample that was not zero does not become
    zero. *)
Theorem reduce_noise_soft_gate (audio : list Q) (i : nat) (x : Q) :
  audio !! i = Some x →
  ∃ noise_floor out,
    np_percentile (Qabs <$> audio) 10 = Some noise_floor ∧
    reduce_noise audio = Some out ∧
    length out = length audio ∧
    ((Qabs x < noise_floor)%Q → out !! i = Some (x * (1 # 10))%Q) ∧
    ((noise_floor < Qabs x)%Q → out !! i = Some x) ∧
    ∃ y, out !! i = Some y ∧ ((y == 0)%Q → (x == 0)%Q).
Proof.
  intros Hx.
  destruct (np_percentile_defined (Qabs <$> audio) 10) as [floor Hfloor].
  { destruct audio; [by rewrite lookup_nil in Hx|done]. }
  { discriminate. }
  { discriminate. }
  exists floor, (soft_gate floor audio).
  split; [done|]. split; [unfold reduce_noise; by rewrite Hfloor|].
  split; [unfold soft_gate; by rewrite length_fmap|].
  unfold soft_gate. rewrite list_lookup_fmap, Hx. simpl.
  destruct (Qlt_le_dec floor (Qabs x)) as [Habove|Hbelow].
  - split; [intros Hlt; exfalso; Lqa.lra|]. split; [done|].
    exists x. done.
  - split; [done|]. split; [intros Hlt; exfalso; Lqa.lra|].
    eexists. split; [reflexivity|]. intros Hz.
    apply Qmult_integral in Hz as [Hz|Hz]; [done|discriminate Hz].
Qed.

Lemma reduce_noise_soft_gate_witness :
  ∃ noise_floor out,
    np_percentile (Qabs <$> [3; -(1 # 100); 1; -2; 0]%Q) 10 = Some noise_floor ∧
    reduce_noise [3; -(1 # 100); 1; -2; 0]%Q = Some out ∧
    length out = 5.
Proof.
  destruct (reduce_noise_soft_gate [3; -(1 # 100); 1; -2; 0]%Q 1
              (-(1 # 100))%Q)
    as (noise_floor & out & Hfloor & Hout & Hlen & _); [reflexivity|].
  exists noise_floor, out. split; [exact Hfloor|]. split; [exact Hout|].
  exact Hlen.
Defined.

End NoiseGateFacts.

(** ** Audio validation *)

Section ValidationFacts.
Import Recorder.
Local Open Scope R_scope.

Lemma foldl_Rmax_spec (x : R) (l : list R) :
  (foldl Rmax x l = x ∨ foldl Rmax x l ∈ l) ∧
  x <= foldl Rmax x l ∧
  ∀ y, y ∈ l → y <= foldl Rmax x l.
Proof.
  revert x. induction l as [|z l IH]; intros x; simpl.
  - split_and!; [by left|lra|]. intros y Hy. by apply elem_of_nil in Hy.
  - destruct (IH (Rmax x z)) as (Hin & Hge & Hall).
    pose proof (Rmax_l x z). pose proof (Rmax_r x z).
    split_and!.
    + destruct Hin as [Heq|Hin].
      * rewrite Heq. unfold Rmax. destruct (Rle_dec x z); [right|by left].
        apply elem_of_cons; by left.
      * right. apply elem_of_cons; by right.
    + lra.
    + intros y [->|Hy]%elem_of_cons; [lra|by apply Hall].
Qed.

(** [np.max] of an array that is not empty is its greatest element. *)
Lemma np_max_spec (l : list R) :
  l ≠ [] →
  ∃ x, np_max l = Ok x ∧ x ∈ l ∧ ∀ y, y ∈ l → y <= x.
Proof.
  destruct l as [|z l]; [done|]. intros _. simpl. eexists.
  split; [reflexivity|].
  destruct (foldl_Rmax_spec z l) as (Hin & Hge & Hall). split.
  - destruct Hin as [->|Hin]; apply elem_of_cons; [by left|by right].
  - intros y [->|Hy]%elem_of_cons; [done|by apply Hall].
Qed.

Lemma sum_R_nonneg (l : list R) : (∀ x, x ∈ l → 0 <= x) → 0 <= sum_R l.
Proof.
  induction l as [|x l IH]; intros Hall; [simpl; lra|].
  rewrite sum_R_cons.
  assert (0 <= x) by (apply Hall, elem_of_cons; by left).
  assert (0 <= sum_R l).
  { apply IH. intros y Hy. apply Hall, elem_of_cons; by right. }
  lra.
Qed.

Lemma mean_nonneg (l : list R) : (∀ x, x ∈ l → 0 <= x) → 0 <= mean l.
Proof.
  intros Hall. unfold mean, Rdiv.
  destruct l as [|x l].
  - simpl. rewrite Rinv_0. lra.
  - apply Rmult_le_pos; [by apply sum_R_nonneg|].
    apply Rlt_le, Rinv_0_lt_compat, lt_0_INR. simpl; lia.
Qed.

Lemma feature_rms_nonneg frame (y : list R) x :
  x ∈ feature_rms frame y → 0 <= x.
Proof.
  unfold feature_rms. intros (fr & -> & _)%list_elem_of_fmap.
  apply root_mean_square_nonneg.
Qed.

(** The classification is decided by the three thresholds. *)
Lemma classify_thresholds (duration peak : R) (snr : level) :
  (duration < 6 → duration_advice (classify duration peak snr) = Too_short) ∧
  (30 < duration →
   duration_advice (classify duration peak snr) = Will_be_truncated) ∧
  (6 <= duration <= 30 →
   duration_advice (classify duration peak snr) = Optimal) ∧
  (clipping (classify duration peak snr) = true ↔ 99 / 100 < peak) ∧
  (noisy (classify duration peak snr) = true ↔
   match snr with NegInf => True | Fin db => db < 10 end).
Proof.
  unfold classify, classify_duration, is_clipping, level_below; simpl.
  split_and!.
  - intros H. destruct (Rlt_dec duration 6); [done|lra].
  - intros H. destruct (Rlt_dec duration 6); [lra|].
    destruct (Rlt_dec 30 duration); [done|lra].
  - intros H. destruct (Rlt_dec duration 6); [lra|].
    destruct (Rlt_dec 30 duration); [lra|done].
  - destruct (Rlt_dec (99 / 100) peak); split; done.
  - destruct snr as [|db]; [done|].
    destruct (Rlt_dec db 10); split; done.
Qed.

(** C6: validation of a decoded file.  The report is the classification
    of (duration, peak, SNR): under 6 s too short, over 30 s to be
    truncated, else optimal; clipping exactly when the peak exceeds 0.99;
    noisy exactly when the SNR estimate, 20·log10 of the greatest frame
    RMS over the mean frame RMS plus 1e-10, is below 10 dB (minus infinity
    for silence); and the method returns its report whichever advisories
    fire. *)
Theorem validate_audio_report (frame : list R → list (list R))
    (duration_ms : Z) (y : list R) :
  y ≠ [] → frame y ≠ [] →
  ∃ peak max_rms,
    np_max (Rabs <$> y) = Ok peak ∧
    (∀ x, x ∈ y → Rabs x <= peak) ∧
    np_max (feature_rms frame y) = Ok max_rms ∧
    let duration := IZR duration_ms / 1000 in
    let snr := snr_estimate max_rms (mean (feature_rms frame y)) in
    validate_audio frame duration_ms y = Ok (classify duration peak snr) ∧
    (0 < max_rms →
     snr = Fin (20 * log10 (max_rms /
                            (mean (feature_rms frame y) + / 10 ^ 10)))) ∧
    (max_rms = 0 → snr = NegInf) ∧
    (duration < 6 →
     duration_advice (classify duration peak snr) = Too_short) ∧
    (30 < duration →
     duration_advice (classify duration peak snr) = Will_be_truncated) ∧
    (6 <= duration <= 30 →
     duration_advice (classify duration peak snr) = Optimal) ∧
    (clipping (classify duration peak snr) = true ↔ 99 / 100 < peak) ∧
    (noisy (classify duration peak snr) = true ↔
     match snr with NegInf => True | Fin db => db < 10 end).
Proof.
  intros Hy Hframes.
  destruct (np_max_spec (Rabs <$> y)) as (peak & Hpeak & _ & Hpeak_max).
  { by destruct y. }
  destruct (np_max_spec (feature_rms frame y)) as (max_rms & Hmax & Hin & _).
  { unfold feature_rms. by destruct (frame y). }
  exists peak, max_rms. split; [done|]. split.
  { intros x Hx. apply Hpeak_max, list_elem_of_fmap. by exists x. }
  split; [done|]. intros duration snr.
  split. { unfold validate_audio. rewrite Hpeak. simpl. by rewrite Hmax. }
  assert (0 < mean (feature_rms frame y) + / 10 ^ 10) as Hden.
  { pose proof (mean_nonneg (feature_rms frame y)
                  (feature_rms_nonneg frame y)).
    assert (0 < / 10 ^ 10) by (apply Rinv_0_lt_compat, pow_lt; lra). lra. }
  split.
  { intros Hpos. unfold snr, snr_estimate, decibels.
    destruct (Req_dec_T _ 0) as [Hz|]; [|done].
    pose proof (Rdiv_lt_0_compat _ _ Hpos Hden). lra. }
  split.
  { intros ->. unfold snr, snr_estimate, decibels.
    destruct (Req_dec_T _ 0) as [|Hnz]; [done|].
    exfalso. apply Hnz. unfold Rdiv. lra. }
  apply classify_thresholds.
Qed.

Lemma validate_audio_report_witness :
  ∃ peak max_rms,
    np_max (Rabs <$> [1 / 2; - (1 / 4)]) = Ok peak ∧
    np_max (feature_rms (fun y => [y]) [1 / 2; - (1 / 4)]) = Ok max_rms ∧
    validate_audio (fun y => [y]) 15000 [1 / 2; - (1 / 4)] =
    Ok (classify (15000 / 1000) peak
          (snr_estimate max_rms
             (mean (feature_rms (fun y => [y]) [1 / 2; - (1 / 4)])))).
Proof.
  destruct (validate_audio_report (fun y => [y]) 15000 [1 / 2; - (1 / 4)])
    as (peak & max_rms & Hpeak & _ & Hmax & Hreport & _);
    [discriminate|discriminate|].
  exists peak, max_rms. split; [exact Hpeak|]. split; [exact Hmax|].
  exact Hreport.
Defined.

End ValidationFacts.

(** * Further properties *)

(** ** The resolved configuration *)

Section ConfigResolution.
Import Config.

Lemma defaults_lookup key :
  (list_to_map defaults : gmap string _) !! key =
  if decide (key = "voices") then Some []
  else if decide (key = "model") then Some model_defaults
  else if decide (key = "output") then Some output_defaults
  else None.
Proof.
  unfold defaults. simpl.
  repeat case_decide; subst;
    rewrite ?lookup_insert_eq, ?lookup_insert_ne, ?lookup_empty by done;
    done.
Qed.

Lemma fill_missing_idempotent items (user : gmap string value) :
  fill_missing items (fill_missing items user) = fill_missing items user.
Proof.
  apply map_eq. intros k. rewrite !fill_missing_lookup.
  destruct (user !! k); [done|]. by destruct (section_dict items !! k).
Qed.

Lemma fill_missing_section_dict items :
  fill_missing items (section_dict items) = section_dict items.
Proof.
  apply map_eq. intros k. rewrite fill_missing_lookup.
  by destruct (section_dict items !! k).
Qed.

(** Resolving a configuration that is already resolved changes nothing:
    a configuration written back to the file and loaded again is the
    same configuration. *)
Theorem load_config_idempotent (v : value) (resolved : gmap string value) :
  load_config (Loaded v) = Ok resolved →
  load_config (Loaded (VDict resolved)) = Ok resolved.
Proof.
  simpl. intros [= <-]. f_equal.
  set (config := match v with VDict d => d | _ => ∅ end).
  apply map_eq. intros key. rewrite !merge_defaults_lookup.
  destruct ((list_to_map defaults : gmap string _) !! key) as [items|];
    [|done].
  unfold merged_value.
  destruct (config !! key) as [[]|]; try done.
  - by rewrite fill_missing_idempotent.
  - by rewrite fill_missing_section_dict.
Qed.

Lemma load_config_idempotent_witness :
  load_config (Loaded (VDict all_defaults)) = Ok all_defaults.
Proof.
  apply (load_config_idempotent VNone all_defaults).
  vm_compute. reflexivity.
Defined.



(** What the user wrote is never replaced: a top-level key the defaults do
    not know is kept, and so is a section the user set to something that
    is not a mapping, into which no default is merged. *)
Theorem load_config_keeps_user_values (config : gmap string value)
    (key : string) (v : value) :
  config !! key = Some v →
  (key ∉ ["voices"; "model"; "output"] ∨ is_dict v = false) →
  ∃ resolved,
    load_config (Loaded (VDict config)) = Ok resolved ∧
    resolved !! key = Some v.
Proof.
  intros Hk Hcase. eexists. split; [reflexivity|].
  rewrite merge_defaults_lookup, defaults_lookup, Hk.
  destruct Hcase as [Hforeign|Hnd].
  - repeat case_decide; subst; try done; exfalso; apply Hforeign;
      repeat ((apply elem_of_cons; by left) || (apply elem_of_cons; right)).
  - repeat case_decide; try done; by destruct v.
Qed.

Lemma load_config_keeps_user_values_witness :
  ∃ resolved,
    load_config (Loaded (VDict {[ "model" := VStr "fast" ]})) = Ok resolved ∧
    resolved !! "model" = Some (VStr "fast").
Proof.
  apply (load_config_keeps_user_values {[ "model" := VStr "fast" ]}
           "model" (VStr "fast")).
  - reflexivity.
  - right. reflexivity.
Defined.

End ConfigResolution.

(** ** The orchestrator: what a call leaves behind *)

Section SynthEffects.
Import Synth.
Context `{B : Backend}.

Local Ltac run := unfold mbind, M_bind, and_then, mret, M_ret, ret, lift,
  get, raise; simpl.

(** The effect of [post_process_audio] on the cloner and on the log. *)
Lemma post_process_audio_effect input_path output_path (m m' : machine) r :
  post_process_audio input_path output_path m = (r, m') →
  config m' = config m ∧ tts m' = tts m ∧
  match r with
  | Ok _ => ∃ target, log m' = (log m ++ [Export target])%list
  | Raise _ => m' = m
  end.
Proof.
  unfold post_process_audio, config_item. run.
  destruct (config m !! "output") as [out|]; simpl;
    [|by intros [= <- <-]].
  destruct out; simpl; try (by intros [= <- <-]).
  destruct (if is_mp3 _ then _ else _); simpl; intros [= <- <-]; simpl;
    (split_and!; [done|done|by eexists]).
Qed.

(** What any call of [generate_speech] does to the cloner and to the log:
    the configuration stays, a loaded model stays loaded, and the events
    added hold one export exactly when the call returns. *)
Lemma generate_speech_effect text voice_sample_path output_path language
    temperature speed (m m' : machine) r :
  generate_speech text voice_sample_path output_path language
    temperature speed m = (r, m') →
  config m' = config m ∧
  (∀ e, tts m = Some e → tts m' = Some e) ∧
  ∃ events,
    log m' = (log m ++ events)%list ∧
    length (List.filter is_export events) =
    match r with Ok _ => 1 | Raise _ => 0 end ∧
    length (List.filter is_error events) = 0.
Proof.
  unfold generate_speech.
  unfold mbind at 1 2 3 4 5, M_bind at 1 2 3 4 5, and_then.
  assert (∀ m1 : machine, ∃ events : list event,
            log m1 = (log m1 ++ events)%list ∧
            length (List.filter is_export events) = 0 ∧
            length (List.filter is_error events) = 0) as Hnil.
  { intros m1. exists []. by rewrite app_nil_r. }
  destruct (initialize_model m) as [[[]|x] m1] eqn:Hinit.
  2:{ rewrite initialize_model_run in Hinit.
      destruct (tts m); [discriminate|].
      destruct (engine_of m); [discriminate|].
      injection Hinit as _ <-. intros [= <- <-].
      split_and!; [done|done|apply Hnil]. }
  assert (∀ e, tts m = Some e → tts m1 = Some e) as Htts.
  { intros e He. rewrite initialize_model_run, He in Hinit.
    by injection Hinit as <-. }
  apply initialize_model_ok in Hinit as (Hc & _ & _ & _ & Hl & _).
  rewrite <-Hc, <-Hl. clear Hc Hl.
  destruct (validate_voice_sample voice_sample_path m1) as [[a|x] m2] eqn:Hval;
    apply validate_voice_sample_state in Hval as ->;
    [|intros [= <- <-]; split_and!; [done|(intros ? Hloaded; specialize (Htts _ Hloaded); simpl; congruence)|apply Hnil]].
  rewrite !resolve_setting_run.
  destruct (match temperature with VNone => _ | _ => _ end);
    [|intros [= <- <-]; split_and!; [done|(intros ? Hloaded; specialize (Htts _ Hloaded); simpl; congruence)|apply Hnil]].
  destruct (match speed with VNone => _ | _ => _ end) as [speed'|];
    [|intros [= <- <-]; split_and!; [done|(intros ? Hloaded; specialize (Htts _ Hloaded); simpl; congruence)|apply Hnil]].
  destruct output_path as [[out|out]|]; run;
    (destruct (tts m1) as [e|] eqn:He;
     [|intros [= <- <-]; split_and!; [done|(intros ? Hloaded; specialize (Htts _ Hloaded); simpl; congruence)|apply Hnil]]);
    (destruct (synthesize e _ _ _ _); simpl;
     [|intros [= <- <-]; simpl;
       split_and!; [done|(intros ? Hloaded; specialize (Htts _ Hloaded); simpl; congruence)|by eexists [_]]]);
    (destruct (post_process_audio _ _ _) as [[[]|x] m3] eqn:Hpost;
     apply post_process_audio_effect in Hpost as (Hc3 & Ht3 & Hl3);
     simpl in Hc3, Ht3, Hl3;
     [destruct Hl3 as [target Hl3]|subst m3]);
    intros [= <- <-]; simpl; rewrite ?Hc3, ?Ht3, ?Hl3;
    (split_and!; [done|(intros ? Hloaded; specialize (Htts _ Hloaded); simpl; congruence)|]);
    first [ by eexists [_; _]; rewrite <-app_assoc
          | by eexists [_] ].
Qed.

(** The speed a call passes to the engine: the argument when one is
    given, else the configured speed. *)
Lemma resolve_speed_ready speed (m : machine) d :
  config m !! "model" = Some (VDict d) →
  resolve_setting speed "speed" (VFloat (1 # 1)%Q) m =
  (Ok match speed with
      | VNone => configured_speed (config m)
      | _ => speed
      end, m).
Proof.
  intros Hd. rewrite resolve_setting_run. unfold configured_speed.
  destruct speed; simpl; rewrite ?Hd; done.
Qed.

(** One call on a ready cloner, for any temperature and speed. *)
Lemma generate_speech_run (m : machine) e p text (out : option string)
    language temperature speed :
  ready m e p →
  let n := default (numbered_name (size (output_dir m) + 1)) out in
  let speed' := match speed with
                | VNone => configured_speed (config m)
                | _ => speed
                end in
  ∃ m',
    generate_speech text (VStr p) (InOutput <$> out) language
      temperature speed m =
    (match synthesize e text (VStr p) language speed' with
     | Ok _ => Ok (InOutput n)
     | Raise x => Raise x
     end, m') ∧
    config m' = config m ∧ tts m' = Some e ∧ files m' = files m ∧
    log m' =
    (log m ++ Synthesize text (VStr p) language speed' ::
       match synthesize e text (VStr p) language speed' with
       | Ok _ => [Export (InOutput (exported_name (config m) n))]
       | Raise _ => []
       end)%list ∧
    output_dir m' =
    match synthesize e text (VStr p) language speed' with
    | Ok _ =>
        ({[ exported_name (config m) n ]} ∪
         ({[ n +:+ ".temp.wav" ]} ∪ output_dir m)) ∖ {[ n +:+ ".temp.wav" ]}
    | Raise _ => output_dir m
    end.
Proof.
  intros (He & [dm Hm] & [dout Hout] & Hp & [ms Hms]) n speed'.
  subst n speed'. unfold generate_speech.
  unfold mbind at 1, M_bind at 1, and_then at 1.
  rewrite initialize_model_run.
  set (m1 := {| config := config m; tts := Some e; files := files m;
                descriptors := descriptors m; output_dir := output_dir m;
                log := log m |}).
  assert (match tts m with
          | Some _ => (Ok tt, m)
          | None => match engine_of m with
                    | Ok e0 => set_tts e0 m
                    | Raise x => (Raise x, m)
                    end
          end = (Ok tt, m1)) as ->.
  { unfold engine_of in *. destruct m as [c [t|] f d o l]; simpl in *.
    - by simplify_eq.
    - by rewrite He. }
  unfold mbind at 1, M_bind at 1, and_then at 1.
  assert (validate_voice_sample (VStr p) m1 = (Ok (advice_for ms), m1)) as ->.
  { unfold validate_voice_sample, path_exists. run.
    rewrite bool_decide_eq_true_2 by done. simpl. by rewrite Hms. }
  unfold mbind at 1, M_bind at 1, and_then at 1.
  destruct (resolve_setting_ok temperature "temperature"
              (VFloat (7 # 10)%Q) m1 dm Hm) as [v ->].
  unfold mbind at 1, M_bind at 1, and_then at 1.
  rewrite (resolve_speed_ready speed m1 dm Hm).
  change (config m1) with (config m).
  set (speed' := match speed with
                 | VNone => configured_speed (config m)
                 | _ => speed
                 end).
  unfold exported_name. rewrite Hout.
  unfold post_process_audio, config_item.
  destruct out as [name|]; run; rewrite Hout; simpl;
    (destruct (synthesize e text (VStr p) language speed') as [[]|x]; simpl;
     [|eexists; split; [reflexivity|]; by simpl]);
    (destruct (is_mp3 (default (VStr "wav") (dout !! "format"))); simpl;
     (eexists; split; [reflexivity|]; simpl; split_and!; try done;
      by rewrite <-app_assoc)).
Qed.

(** *** Renaming an export to [.mp3] *)









Lemma temp_name_longer (a n : string) :
  String.length a = String.length n → a ≠ n +:+ ".temp.wav".
Proof.
  intros Hlen Heq. apply (f_equal String.length) in Heq.
  rewrite string_length_app in Heq. simpl in Heq. lia.
Qed.

(** The model is loaded once: a cloner that holds a model keeps that same
    model through every call of [generate_speech], whether the call
    returns or raises, and the next initialisation does nothing. *)
Theorem loaded_model_is_reused text voice_sample_path output_path language
    temperature speed (m m' : machine) r e :
  tts m = Some e →
  generate_speech text voice_sample_path output_path language
    temperature speed m = (r, m') →
  tts m' = Some e ∧ initialize_model m' = (Ok tt, m').
Proof.
  intros He Hrun.
  apply generate_speech_effect in Hrun as (_ & Htts & _).
  specialize (Htts e He). split; [done|].
  by rewrite initialize_model_run, Htts.
Qed.

(** A voice sample that does not exist stops the call before the engine
    is reached: the call raises, no engine call is logged, and no file is
    written; once the model is loaded the exception is the file-not-found
    error naming the path. *)
Theorem missing_voice_sample_stops_before_engine text p output_path language
    temperature speed (m m' : machine) r :
  p ∉ files m →
  generate_speech text (VStr p) output_path language temperature speed m =
  (r, m') →
  (∃ x, r = Raise x) ∧
  log m' = log m ∧ files m' = files m ∧ output_dir m' = output_dir m ∧
  (is_Some (tts m') →
   r = Raise (FileNotFoundError ("Audio file not found: " +:+ p))).
Proof.
  intros Hp. unfold generate_speech.
  unfold mbind at 1 2, M_bind at 1 2, and_then.
  destruct (initialize_model m) as [[[]|x] m1] eqn:Hinit.
  - apply initialize_model_ok in Hinit as (_ & Hf & _ & Ho & Hl & _).
    unfold validate_voice_sample, path_exists. run.
    rewrite bool_decide_eq_false_2 by (by rewrite Hf). simpl.
    intros [= <- <-]. split_and!; eauto.
  - rewrite initialize_model_run in Hinit.
    destruct (tts m) eqn:Ht; [discriminate|].
    destruct (engine_of m); [discriminate|].
    injection Hinit as _ <-. intros [= <- <-]. split_and!; eauto.
    rewrite Ht. by intros [? ?].
Qed.

(** A [model] section that is not a mapping passes through [load_config]
    as it is, and every call of [generate_speech] on the cloner made from
    that configuration raises a type error at model initialisation, with
    nothing loaded, logged or written. *)
Theorem non_mapping_model_section_fails (config : gmap string value)
    (v : value) voices entries text voice_sample_path output_path language
    temperature speed :
  config !! "model" = Some v →
  is_dict v = false →
  ∃ cfg,
    Config.load_config (Config.Loaded (VDict config)) = Ok cfg ∧
    generate_speech text voice_sample_path output_path language
      temperature speed (fresh cfg voices entries) =
    (Raise TypeError, fresh cfg voices entries).
Proof.
  intros Hm Hv. eexists. split; [reflexivity|].
  unfold generate_speech. unfold mbind at 1, M_bind at 1, and_then at 1.
  rewrite initialize_model_run. unfold engine_of. simpl.
  rewrite merge_defaults_lookup, defaults_lookup, Hm. simpl.
  by destruct v.
Qed.

(** Speed precedence: the engine is called with the speed argument when
    one is given, else with the [speed] of the configuration's [model]
    section, else with 1.0; the call is the first event the run adds. *)
Theorem speed_precedence (m : machine) e p dm text (out : option string)
    language temperature speed :
  ready m e p →
  config m !! "model" = Some (VDict dm) →
  ∃ r m',
    generate_speech text (VStr p) (InOutput <$> out) language
      temperature speed m = (r, m') ∧
    log m' !! length (log m) =
    Some (Synthesize text (VStr p) language
            match speed with
            | VNone => default (VFloat (1 # 1)%Q) (dm !! "speed")
            | _ => speed
            end).
Proof.
  intros Hready Hm.
  destruct (generate_speech_run m e p text out language temperature speed
              Hready) as (m' & Hrun & _ & _ & _ & Hlog & _).
  eexists _, m'. split; [exact Hrun|].
  rewrite Hlog, lookup_app_r, Nat.sub_diag by lia. simpl.
  unfold configured_speed. by rewrite Hm.
Qed.

(** A failed synthesis writes nothing: the engine's exception is the
    call's exception, and neither a transient file nor an output file
    appears. *)
Theorem engine_failure_writes_nothing (m : machine) e p text
    (out : option string) language temperature speed x :
  ready m e p →
  synthesize e text (VStr p) language
    match speed with
    | VNone => configured_speed (config m)
    | _ => speed
    end = Raise x →
  ∃ m',
    generate_speech text (VStr p) (InOutput <$> out) language
      temperature speed m = (Raise x, m') ∧
    output_dir m' = output_dir m ∧ files m' = files m ∧
    List.filter is_export (log m') = List.filter is_export (log m).
Proof.
  intros Hready Hfail.
  destruct (generate_speech_run m e p text out language temperature speed
              Hready) as (m' & Hrun & _ & _ & Hf & Hlog & Hout).
  rewrite Hfail in Hrun, Hlog, Hout.
  exists m'. split_and!; try done.
  rewrite Hlog, List.filter_app. simpl. by rewrite app_nil_r.
Qed.







(** With the [wav] format, single-text mode without an output path ends
    with status 0 exactly as it should: the voice resolves, the engine
    succeeds, and the file it reports, [output_N.wav], exists. *)
Theorem single_mode_succeeds_with_wav (m : machine) e p voice text
    language temperature speed :
  ready m e p →
  Voice.get_voice_sample_path (config m) (files m) voice = Ok (VStr p) →
  (∀ name, exported_name (config m) name = name) →
  text ≠ "" →
  synthesize e text (VStr p) language
    match speed with
    | VNone => configured_speed (config m)
    | _ => speed
    end = Ok tt →
  ∃ m',
    main_single voice text None language temperature speed m = (0%Z, m') ∧
    numbered_name (size (output_dir m) + 1) ∈ output_dir m' ∧
    Export (InOutput (numbered_name (size (output_dir m) + 1))) ∈ log m'.
Proof.
  intros Hready Hvoice Hwav Htext Hok.
  destruct (generate_speech_run m e p text None language temperature speed
              Hready) as (m' & Hrun & _ & _ & _ & Hlog & Hdir).
  simpl in Hrun, Hlog, Hdir. rewrite Hok in Hrun, Hlog, Hdir.
  rewrite Hwav in Hlog, Hdir.
  set (n := numbered_name (size (output_dir m) + 1)) in *.
  assert (n ∈ output_dir m') as Hin.
  { rewrite Hdir, elem_of_difference, !elem_of_union, !elem_of_singleton.
    split; [by left|]. by apply temp_name_longer. }
  exists m'. split_and!; [|done|].
  - assert (get_voice_sample_path voice m = (Ok (VStr p), m)) as Hget.
    { unfold get_voice_sample_path. run. by rewrite Hvoice. }
    unfold main_single. rewrite Hget.
    destruct (decide (text = "")); [done|].
    change (Rel <$> None) with (@None path). rewrite Hrun.
    unfold path_in. by rewrite bool_decide_eq_true_2.
  - rewrite Hlog. apply elem_of_app; right.
    apply elem_of_cons; right. apply elem_of_cons; by left.
Qed.

End SynthEffects.

(** ** The two duration checks *)

Section DurationChecks.
Local Open Scope R_scope.

Lemma duration_below (ms bound : Z) :
  IZR ms / 1000 < IZR bound ↔ (ms < 1000 * bound)%Z.
Proof.
  split.
  - intros H. apply lt_IZR. rewrite mult_IZR. lra.
  - intros H. apply IZR_lt in H. rewrite mult_IZR in H. lra.
Qed.

(** The recorder and the cloner judge a sample's length alike: what
    [validate_audio] calls optimal is what [validate_voice_sample] calls
    good (6 s to 30 s), both announce truncation above 30 s, and what the
    recorder calls too short the cloner warns about (under 3 s) or
    accepts (3 s to 6 s). *)
Theorem validators_agree_on_duration (ms : Z) :
  (Recorder.classify_duration (IZR ms / 1000) = Recorder.Optimal ↔
   Synth.advice_for ms = Synth.Good) ∧
  (Recorder.classify_duration (IZR ms / 1000) = Recorder.Will_be_truncated ↔
   Synth.advice_for ms = Synth.Will_use_first_30) ∧
  (Recorder.classify_duration (IZR ms / 1000) = Recorder.Too_short ↔
   Synth.advice_for ms = Synth.Warning_short ∨
   Synth.advice_for ms = Synth.Acceptable).
Proof.
  unfold Recorder.classify_duration, Synth.advice_for.
  pose proof (duration_below ms 6) as H6.
  assert (30 < IZR ms / 1000 ↔ (30000 < ms)%Z) as H30.
  { split.
    - intros H. apply lt_IZR. lra.
    - intros H. apply IZR_lt in H. lra. }
  destruct (Rlt_dec (IZR ms / 1000) 6) as [Hs|Hs];
    destruct (Rlt_dec 30 (IZR ms / 1000)) as [Hl|Hl];
    repeat case_decide; try lia;
    try (apply H6 in Hs; lia); try (apply H30 in Hl; lia);
    try (exfalso; apply Hs, H6; lia); try (exfalso; apply Hl, H30; lia);
    (split_and!; split; try done; try (intros [|]; done); auto).
Qed.

End DurationChecks.

(** ** More on noise gating *)

Section NoiseGateBounds.
Import Recorder.

(** Gating never amplifies and never flips a sample: every output sample
    has at most the magnitude of its input sample and the same sign. *)
Theorem reduce_noise_never_amplifies (audio out : list Q) (i : nat) (x y : Q) :
  reduce_noise audio = Some out →
  audio !! i = Some x →
  out !! i = Some y →
  (Qabs y <= Qabs x)%Q ∧ (0 <= x * y)%Q.
Proof.
  unfold reduce_noise. intros Hout Hx Hy.
  destruct (np_percentile (Qabs <$> audio) 10) as [floor|]; [|discriminate].
  injection Hout as <-. unfold soft_gate in Hy.
  rewrite list_lookup_fmap, Hx in Hy. simpl in Hy.
  destruct (Qlt_le_dec floor (Qabs x)); injection Hy as <-.
  - split; [apply Qle_refl|]. destruct (Qlt_le_dec x 0); Lqa.nra.
  - split.
    + rewrite Qabs_Qmult. change (Qabs (1 # 10)) with (1 # 10)%Q.
      pose proof (Qabs_nonneg x). Lqa.lra.
    + destruct (Qlt_le_dec x 0); Lqa.nra.
Qed.

Lemma reduce_noise_never_amplifies_witness :
  (Qabs (-(1 # 10)) <= Qabs (-1))%Q ∧ (0 <= -1 * -(1 # 10))%Q.
Proof.
  apply (reduce_noise_never_amplifies
           (inject_Z <$> [0; -1; 2; 3; 4; 5; 6; 7; 8; 9; 10]%Z)
           [0 # 10; -1 # 10; 2; 3; 4; 5; 6; 7; 8; 9; 10]%Q 1).
  - vm_compute. reflexivity.
  - reflexivity.
  - reflexivity.
Defined.

(** The quietest sample is always attenuated, whatever the signal: the
    noise floor is never below the smallest magnitude.  In particular a
    signal whose samples all have the same magnitude is attenuated as a
    whole. *)
Theorem quietest_sample_is_attenuated (audio out : list Q) (i : nat) (x : Q) :
  reduce_noise audio = Some out →
  audio !! i = Some x →
  (∀ z, z ∈ audio → (Qabs x <= Qabs z)%Q) →
  out !! i = Some (x * (1 # 10))%Q.
Proof.
  unfold reduce_noise. intros Hout Hx Hmin.
  destruct (np_percentile (Qabs <$> audio) 10) as [floor|] eqn:Hfloor;
    [|discriminate].
  injection Hout as <-.
  destruct (np_percentile_between (Qabs <$> audio) 10 floor)
    as (lo & hi & Hlo & _ & Hle & _); [discriminate|discriminate|done|].
  assert (lo ∈ Qabs <$> audio) as Hin.
  { rewrite <-(merge_sort_Permutation Qle (Qabs <$> audio)).
    by eapply list_elem_of_lookup_2. }
  apply list_elem_of_fmap in Hin as (z & -> & Hz).
  specialize (Hmin z Hz).
  unfold soft_gate. rewrite list_lookup_fmap, Hx. simpl.
  destruct (Qlt_le_dec floor (Qabs x)); [exfalso; Lqa.lra|done].
Qed.

Lemma quietest_sample_is_attenuated_witness :
  [(1 # 20); -(1 # 20); (1 # 20)]%Q !! 1 = Some (-(1 # 2) * (1 # 10))%Q.
Proof.
  apply (quietest_sample_is_attenuated
           [(1 # 2); -(1 # 2); (1 # 2)]%Q
           [(1 # 20); -(1 # 20); (1 # 20)]%Q 1 (-(1 # 2))%Q).
  - vm_compute. reflexivity.
  - reflexivity.
  - intros z Hz.
    repeat (apply elem_of_cons in Hz as [->|Hz]); try discriminate.
    by apply elem_of_nil in Hz.
Defined.

End NoiseGateBounds.

(** ** More on audio validation *)

Section ValidationBounds.
Import Recorder.
Local Open Scope R_scope.

(** The clipping advisory looks at every sample: it fires exactly when
    some sample has a magnitude above 0.99. *)
Theorem clipping_detects_any_sample (frame : list R → list (list R))
    (duration_ms : Z) (y : list R) (rep : report) :
  validate_audio frame duration_ms y = Ok rep →
  (clipping rep = true ↔ ∃ x, x ∈ y ∧ 99 / 100 < Rabs x).
Proof.
  unfold validate_audio. intros Hrep.
  destruct y as [|x0 y]; [discriminate|].
  destruct (np_max_spec (Rabs <$> x0 :: y)) as (peak & Hpeak & Hin & Hmax);
    [done|].
  rewrite Hpeak in Hrep. simpl in Hrep.
  destruct (np_max (feature_rms frame (x0 :: y))); [|discriminate].
  injection Hrep as <-. simpl. unfold is_clipping.
  destruct (Rlt_dec (99 / 100) peak) as [Hclip|Hclip].
  - split; [intros _|done].
    apply list_elem_of_fmap in Hin as (x & -> & Hx). by exists x.
  - split; [done|]. intros (x & Hx & Habove). exfalso. apply Hclip.
    assert (Rabs x <= peak).
    { apply Hmax, list_elem_of_fmap. by exists x. }
    lra.
Qed.

Lemma clipping_detects_any_sample_witness :
  clipping
    (classify (15000 / 1000) (foldl Rmax (Rabs (1 / 2)) [Rabs (- (1 / 4))])
       (snr_estimate
          (foldl Rmax (root_mean_square [1 / 2; - (1 / 4)]) [])
          (mean (feature_rms (fun y => [y]) [1 / 2; - (1 / 4)])))) = true ↔
  ∃ x, x ∈ [1 / 2; - (1 / 4)] ∧ 99 / 100 < Rabs x.
Proof.
  apply (clipping_detects_any_sample (fun y => [y]) 15000 [1 / 2; - (1 / 4)]).
  reflexivity.
Defined.

Lemma ln_sqrt_10 : ln (sqrt 10) = ln 10 / 2.
Proof.
  assert (0 < sqrt 10) as Hpos by (apply sqrt_lt_R0; lra).
  assert (ln 10 = ln (sqrt 10) + ln (sqrt 10)) as H.
  { rewrite <-ln_mult by done. f_equal. symmetry. apply sqrt_sqrt. lra. }
  lra.
Qed.

(** The noise advisory as a ratio: for frame levels that are not negative
    the SNR estimate is below 10 dB exactly when the loudest frame is
    less than the square root of ten (about 3.16) times the mean frame
    level plus 1e-10.  So a signal whose level never moves, the loudest
    frame being no louder than the mean, is always reported as noisy. *)
Theorem noisy_below_sqrt_ten (max_rms mean_rms : R) :
  0 <= max_rms → 0 <= mean_rms →
  (level_below (snr_estimate max_rms mean_rms) 10 = true ↔
   max_rms < sqrt 10 * (mean_rms + / 10 ^ 10)) ∧
  (max_rms <= mean_rms →
   level_below (snr_estimate max_rms mean_rms) 10 = true).
Proof.
  intros Hmax Hmean.
  assert (0 < mean_rms + / 10 ^ 10) as Hden.
  { assert (0 < / 10 ^ 10) by (apply Rinv_0_lt_compat, pow_lt; lra). lra. }
  assert (0 < sqrt 10) as Hsqrt by (apply sqrt_lt_R0; lra).
  assert (1 < sqrt 10) as Hsqrt1.
  { rewrite <-sqrt_1. apply sqrt_lt_1; lra. }
  assert (level_below (snr_estimate max_rms mean_rms) 10 = true ↔
          max_rms < sqrt 10 * (mean_rms + / 10 ^ 10)) as Hiff.
  { unfold snr_estimate, decibels, level_below.
    set (ratio := max_rms / (mean_rms + / 10 ^ 10)).
    assert (max_rms = ratio * (mean_rms + / 10 ^ 10)) as Hr.
    { unfold ratio. field. lra. }
    destruct (Req_dec_T ratio 0) as [Hz|Hnz].
    - split; [intros _|done]. rewrite Hr, Hz. nra.
    - assert (0 < ratio) as Hpos.
      { assert (0 <= ratio) by (apply Rle_mult_inv_pos; lra). lra. }
      pose proof ln_10_pos as Hln.
      assert (20 * log10 ratio < 10 ↔ ln ratio < ln (sqrt 10)) as Hlog.
      { rewrite ln_sqrt_10. unfold log10.
        assert (ln ratio = ln ratio / ln 10 * ln 10) as Hq by (field; lra).
        set (q := ln ratio / ln 10) in *. rewrite Hq.
        split; intros H; nra. }
      destruct (Rlt_dec (20 * log10 ratio) 10) as [Hlt|Hge].
      + split; [intros _|done]. apply Hlog, ln_lt_inv in Hlt; [|done..].
        rewrite Hr. by apply Rmult_lt_compat_r.
      + split; [done|]. intros Hlt. exfalso. apply Hge, Hlog.
        apply ln_increasing; [done|].
        apply (Rmult_lt_reg_r (mean_rms + / 10 ^ 10)); [done|].
        by rewrite <-Hr. }
  split; [exact Hiff|]. intros Hsteady. apply Hiff. nra.
Qed.

Lemma noisy_below_sqrt_ten_witness :
  level_below (snr_estimate 1 1) 10 = true.
Proof.
  apply (noisy_below_sqrt_ten 1 1); lra.
Defined.

End ValidationBounds.

(** ** Recording and splitting *)

Section CaptureFacts.
Import Capture.
Local Open Scope nat_scope.

(** The first [k] chunks of [c] milliseconds make up the first [k * c]
    milliseconds of the segment. *)
Lemma chunks_make_prefix {A} (audio : list A) (c k : nat) :
  concat ((fun i => slice audio (i * c) (Nat.min ((i + 1) * c) (length audio)))
          <$> seq 0 k) = take (k * c) audio.
Proof.
  induction k as [|k IH]; [done|].
  rewrite seq_S, fmap_app, concat_app, IH. simpl. rewrite app_nil_r.
  unfold slice.
  destruct (decide ((k + 1) * c ≤ length audio)) as [Hle|Hgt].
  - rewrite Nat.min_l by done.
    replace ((k + 1) * c - k * c) with c by lia.
    rewrite take_take_drop. f_equal. lia.
  - rewrite Nat.min_r by lia.
    destruct (decide (k * c ≤ length audio)) as [Hk|Hk].
    + rewrite take_take_drop.
      replace (k * c + (length audio - k * c)) with (length audio) by lia.
      rewrite !take_ge by lia. done.
    + replace (length audio - k * c) with 0 by lia.
      rewrite take_0, app_nil_r, !take_ge by lia. done.
Qed.

Lemma chunk_count_spec (len_ms max_duration : nat) :
  0 < max_duration →
  (chunk_count len_ms max_duration - 1) * (1000 * max_duration) < len_ms + 1 ∧
  len_ms ≤ chunk_count len_ms max_duration * (1000 * max_duration) ∧
  (0 < len_ms →
   (chunk_count len_ms max_duration - 1) * (1000 * max_duration) < len_ms).
Proof.
  intros Hmax. unfold chunk_count.
  set (c := 1000 * max_duration). assert (0 < c) as Hc by lia.
  pose proof (Nat.div_mod (len_ms + c - 1) c ltac:(lia)) as Hdiv.
  pose proof (Nat.mod_upper_bound (len_ms + c - 1) c ltac:(lia)) as Hmod.
  set (q := (len_ms + c - 1) / c) in *.
  set (r := (len_ms + c - 1) mod c) in *.
  split_and!; [nia|nia|intros ?; nia].
Qed.

(** Splitting loses nothing and makes no oversized part: a recording of at
    most [max_duration] seconds is returned as it is; a longer one is cut
    into two or more parts, each of them non-empty and at most
    [max_duration] seconds long, which put together in order are the
    recording. *)
Theorem split_long_audio_covers {A} (audio : list A) (stem suffix : string)
    (max_duration : nat) :
  0 < max_duration →
  ∃ pieces,
    split_long_audio audio stem suffix max_duration = Some pieces ∧
    (length audio ≤ 1000 * max_duration → pieces = [Whole]) ∧
    (1000 * max_duration < length audio →
     concat (chunk_of <$> pieces) = audio ∧
     2 ≤ length pieces ∧
     ∀ p, p ∈ pieces →
          ∃ name chunk, p = Part name chunk ∧
                        0 < length chunk ≤ 1000 * max_duration).
Proof.
  intros Hmax. unfold split_long_audio.
  destruct (decide (length audio ≤ 1000 * max_duration)) as [Hshort|Hlong].
  { eexists. split; [done|]. split; [done|lia]. }
  destruct (decide (max_duration = 0)); [lia|].
  eexists. split; [done|]. split; [lia|]. intros _.
  set (c := 1000 * max_duration).
  set (k := chunk_count (length audio) max_duration).
  destruct (chunk_count_spec (length audio) max_duration Hmax)
    as (_ & Hcover & Hlast).
  fold c k in Hcover, Hlast. specialize (Hlast ltac:(lia)).
  split_and!.
  - rewrite <-list_fmap_compose.
    rewrite (list_fmap_ext _
               (fun i => slice audio (i * c)
                           (Nat.min ((i + 1) * c) (length audio))))
      by done.
    rewrite chunks_make_prefix. apply take_ge. lia.
  - rewrite length_fmap, length_seq. fold k.
    assert (¬ length audio ≤ c) as Hlong' by done.
    clearbody c k. nia.
  - intros p (i & -> & Hi%elem_of_seq)%list_elem_of_fmap.
    eexists _, _. split; [done|].
    unfold slice. rewrite length_take, length_drop.
    assert (i * c < length audio) by nia. lia.
Qed.

Lemma split_long_audio_covers_witness :
  ∃ pieces,
    split_long_audio (replicate 2500 tt) "talk" ".wav" 1 = Some pieces.
Proof.
  destruct (split_long_audio_covers (replicate 2500 tt) "talk" ".wav" 1)
    as (pieces & Hsplit & _); [lia|].
  by exists pieces.
Defined.

Lemma omap_name_of_parts {A} (g : nat → string) (h : nat → list A)
    (l : list nat) :
  omap name_of ((fun i => Part (g i) (h i)) <$> l) = g <$> l.
Proof.
  induction l as [|i l IH]; [done|]. rewrite !fmap_cons.
  change (omap name_of
            (Part (g i) (h i) :: ((fun i => Part (g i) (h i)) <$> l)))
    with (g i :: omap name_of ((fun i => Part (g i) (h i)) <$> l)).
  by rewrite IH.
Qed.

(** The parts of a split are numbered from 1 in order, next to the input
    and with its suffix, and no two parts share a file. *)
Theorem split_part_names_distinct {A} (audio : list A) (stem suffix : string)
    (max_duration : nat) pieces :
  1000 * max_duration < length audio →
  split_long_audio audio stem suffix max_duration = Some pieces →
  omap name_of pieces =
  (fun i => stem +:+ "_part" +:+ pretty (i + 1) +:+ suffix)
  <$> seq 0 (length pieces) ∧
  NoDup (omap name_of pieces).
Proof.
  intros Hlong. unfold split_long_audio.
  destruct (decide (length audio ≤ 1000 * max_duration)); [lia|].
  destruct (decide (max_duration = 0)); [discriminate|].
  intros [= <-]. rewrite length_fmap, length_seq.
  set (k := chunk_count (length audio) max_duration).
  rewrite (omap_name_of_parts (part_name stem suffix) _ (seq 0 k)).
  split; [done|].
  apply NoDup_fmap_2; [|apply NoDup_seq].
  intros i j Heq. unfold part_name in Heq.
  apply (inj (String.app stem)) in Heq.
  apply (inj (String.app "_part")) in Heq.
  apply string_app_inj_r in Heq. apply (inj pretty) in Heq. lia.
Qed.

Lemma split_part_names_distinct_witness :
  NoDup (omap name_of
           (default [] (split_long_audio (replicate 2500 tt)
                          "talk" ".wav" 1))).
Proof.
  destruct (split_long_audio (replicate 2500 tt) "talk" ".wav" 1)
    as [pieces|] eqn:Hsplit; [|apply NoDup_nil_2].
  apply (split_part_names_distinct (replicate 2500 tt) "talk" ".wav" 1
           pieces); [|exact Hsplit].
  rewrite length_replicate. lia.
Defined.



(** With [--split] the requested output path is never written: every
    piece, even the single piece of a recording too short to split, goes
    to its own [stem_chunkN.wav], the names are pairwise distinct, and
    none of them is the requested [stem + suffix]. *)
Theorem split_mode_never_writes_requested_output {A} (pieces : list (piece A))
    (stem suffix : string) :
  (suffix = "" ∨ ∃ rest, suffix = String "."%char rest) →
  length (main_outputs true pieces stem suffix) = length pieces ∧
  NoDup (main_outputs true pieces stem suffix) ∧
  ((stem +:+ suffix) ∉ main_outputs true pieces stem suffix) ∧
  (pieces = [Whole] →
   main_outputs true pieces stem suffix = [stem +:+ "_chunk1.wav"]).
Proof.
  intros Hsuffix. unfold main_outputs.
  assert (imap (fun i (_ : piece A) => chunk_output_name stem i) pieces =
          chunk_output_name stem <$> seq 0 (length pieces)) as ->.
  { apply (imap_seq_0 pieces (chunk_output_name stem)). }
  split_and!.
  - by rewrite length_fmap, length_seq.
  - apply NoDup_fmap_2; [|apply NoDup_seq].
    intros i j Heq. unfold chunk_output_name in Heq.
    apply (inj (String.app stem)) in Heq.
    apply (inj (String.app "_chunk")) in Heq.
    apply string_app_inj_r in Heq. apply (inj pretty) in Heq. lia.
  - intros (i & Heq & _)%list_elem_of_fmap.
    unfold chunk_output_name in Heq. apply (inj (String.app stem)) in Heq.
    destruct Hsuffix as [->|[rest ->]]; discriminate Heq.
  - intros ->. reflexivity.
Qed.

Lemma split_mode_never_writes_requested_output_witness :
  ("voice" +:+ ".wav") ∉
  main_outputs true [@Whole unit] "voice" ".wav".
Proof.
  apply (@split_mode_never_writes_requested_output unit [Whole] "voice" ".wav").
  right. by eexists.
Defined.

End CaptureFacts.

(** ** The further properties on the stand-in engine *)

Section MoreScenarios.
Import Synth.

Lemma studio_ready failing entries :
  @ready (fake_backend failing) (studio failing entries) tt "voices/alex.wav".
Proof.
  split_and!.
  - vm_compute. reflexivity.
  - eexists. vm_compute. reflexivity.
  - eexists. vm_compute. reflexivity.
  - by apply elem_of_singleton.
  - eexists. reflexivity.
Qed.

Lemma loaded_model_is_reused_witness :
  tts (@generate_speech (fake_backend ["boom"]) "boom" (VStr "voices/alex.wav")
         None "en" VNone VNone
         (@generate_speech (fake_backend ["boom"]) "Hello"
            (VStr "voices/alex.wav") None "en" VNone VNone
            (studio ["boom"] ∅)).2).2 = Some tt.
Proof.
  refine (proj1 (@loaded_model_is_reused (fake_backend ["boom"]) "boom"
                   (VStr "voices/alex.wav") None "en" VNone VNone
                   (@generate_speech (fake_backend ["boom"]) "Hello"
                      (VStr "voices/alex.wav") None "en" VNone VNone
                      (studio ["boom"] ∅)).2
                   _ _ tt _ _)).
  - vm_compute. reflexivity.
  - apply surjective_pairing.
Defined.

Lemma missing_voice_sample_stops_before_engine_witness :
  log (@generate_speech (fake_backend []) "Hello" (VStr "voices/bob.wav")
         None "en" VNone VNone (studio [] ∅)).2 = [].
Proof.
  destruct (@missing_voice_sample_stops_before_engine (fake_backend [])
              "Hello" "voices/bob.wav" None "en" VNone VNone (studio [] ∅)
              (@generate_speech (fake_backend []) "Hello"
                 (VStr "voices/bob.wav") None "en" VNone VNone
                 (studio [] ∅)).2
              (@generate_speech (fake_backend []) "Hello"
                 (VStr "voices/bob.wav") None "en" VNone VNone
                 (studio [] ∅)).1) as (_ & Hlog & _).
  - change (files (studio [] ∅)) with ({[ "voices/alex.wav" ]} : gset string).
    intros Hin%elem_of_singleton. discriminate Hin.
  - apply surjective_pairing.
  - exact Hlog.
Defined.

Lemma non_mapping_model_section_fails_witness :
  ∃ cfg,
    Config.load_config (Config.Loaded (VDict {[ "model" := VStr "fast" ]})) =
    Ok cfg ∧
    @generate_speech (fake_backend []) "Hello" (VStr "voices/alex.wav") None
      "en" VNone VNone (@fresh (fake_backend []) cfg {[ "voices/alex.wav" ]} ∅) =
    (Raise TypeError, @fresh (fake_backend []) cfg {[ "voices/alex.wav" ]} ∅).
Proof.
  apply (@non_mapping_model_section_fails (fake_backend [])
           {[ "model" := VStr "fast" ]} (VStr "fast")).
  - reflexivity.
  - reflexivity.
Defined.

Lemma speed_precedence_witness :
  ∃ r m',
    @generate_speech (fake_backend []) "Hello" (VStr "voices/alex.wav") None
      "en" VNone (VFloat (3 # 2)%Q) (studio [] ∅) = (r, m') ∧
    log m' !! 0 =
    Some (Synthesize "Hello" (VStr "voices/alex.wav") "en" (VFloat (3 # 2)%Q)).
Proof.
  apply (@speed_precedence (fake_backend []) (studio [] ∅) tt
           "voices/alex.wav" (Config.section_dict Config.model_defaults)
           "Hello" None "en" VNone (VFloat (3 # 2)%Q)).
  - apply studio_ready.
  - vm_compute. reflexivity.
Defined.

Lemma engine_failure_writes_nothing_witness :
  ∃ m',
    @generate_speech (fake_backend ["boom"]) "boom" (VStr "voices/alex.wav")
      None "en" VNone VNone (studio ["boom"] {[ "old.wav" ]}) =
    (Raise (EngineError "boom"), m') ∧
    output_dir m' = {[ "old.wav" ]}.
Proof.
  destruct (@engine_failure_writes_nothing (fake_backend ["boom"])
              (studio ["boom"] {[ "old.wav" ]}) tt "voices/alex.wav" "boom"
              None "en" VNone VNone (EngineError "boom"))
    as (m' & Hrun & Hdir & _).
  - apply studio_ready.
  - vm_compute. reflexivity.
  - exists m'. split; [exact Hrun|exact Hdir].
Defined.





Lemma single_mode_succeeds_with_wav_witness :
  ∃ m',
    @main_single (fake_backend []) "alex" "Hello" None "en" VNone VNone
      (studio [] ∅) = (0%Z, m') ∧
    numbered_name (size (output_dir (studio [] ∅)) + 1) ∈ output_dir m'.
Proof.
  destruct (@single_mode_succeeds_with_wav (fake_backend []) (studio [] ∅)
              tt "voices/alex.wav" "alex" "Hello" "en" VNone VNone)
    as (m' & Hrun & Hin & _).
  - apply studio_ready.
  - vm_compute. reflexivity.
  - intros name. reflexivity.
  - discriminate.
  - vm_compute. reflexivity.
  - exists m'. split; [exact Hrun|exact Hin].
Defined.

Lemma numbered_dir_invariant_witness :
  ∃ m',
    @generate_speech (fake_backend []) "Hello" (VStr "voices/alex.wav") None
      "en" VNone VNone (studio [] (numbered_dir 2)) =
    (Ok (InOutput (numbered_name 3)), m') ∧
    output_dir m' = numbered_dir 3.
Proof.
  destruct (@numbered_dir_invariant (fake_backend [])
              (studio [] (numbered_dir 2)) tt "voices/alex.wav" "Hello"
              "en" 2) as (m' & Hrun & _ & Hdir & _).
  - apply studio_ready.
  - intros name. reflexivity.
  - reflexivity.
  - vm_compute. reflexivity.
  - exists m'. split; [exact Hrun|exact Hdir].
Defined.

End MoreScenarios.
